(** * reass: the pcap reader (src/lib/pcap_reader.cpp)

    A shallow embedding of [pcap_reader_t]: the capture session
    ([read_file], [open_file], [open_live_capture], the close guard), the
    reassembler switches ([enable_tcp_reassembly], [enable_udp_reassembly])
    and the per-frame callback [handle_packet].

    The member functions mutate the reader and call into libpcap, the packet
    model, the reassemblers and the listener.  They are embedded as state
    transformers over one record [state]; C++ exceptions are the [Raise]
    outcome of a small state-and-exception monad, a failed [assert] is
    [Abort].  Every call that leaves the reader is appended to [trace], so
    that "is invoked", "exactly once" and "before" are statements about that
    list. *)

From stdpp Require Import gmap strings list.


Open Scope Z_scope.

(** ** Data *)

(** [pcap_t *]: the identity of a libpcap handle; [None] is the null
    pointer. *)
Definition pcap_t := nat.

(** [packet_listener_t *]: the identity of a consumer. *)
Definition listener_t := nat.

(** [packet_t *]: the identity of a pooled packet object. *)
Definition packet_ptr := nat.

(** Modelled from the spec: the layer type enumeration of the packet model
    (declared in a header outside src/); the reader only tests for
    [layer_tcp], [layer_udp] and [layer_data]. *)
Inductive layer_type :=
| layer_tcp
| layer_udp
| layer_data
| layer_other (tag : nat).

Definition layer_type_eqb (a b : layer_type) : bool :=
  match a, b with
  | layer_tcp, layer_tcp | layer_udp, layer_udp | layer_data, layer_data => true
  | layer_other n, layer_other m => Nat.eqb n m
  | _, _ => false
  end.

(** [struct pcap_pkthdr] and the frame bytes handed to the callback. *)
Record pcap_pkthdr := { tv_sec : Z; caplen : Z; len : Z }.
Record frame := { hdr : pcap_pkthdr; data : list Z }.

(** Where the bytes of a packet live: nowhere yet, in libpcap's transient
    frame buffer, or in storage of the packet's own. *)
Inductive data_owner := Unset | Borrowed | Owned.

(** Modelled from the spec: the state of a [packet_t] that the reader can
    observe: its layer stack (outermost first), its timestamp and the
    ownership of its bytes. *)
Record packet_t := {
  p_layers : list layer_type;
  p_ts : Z;
  p_data : data_owner
}.

Definition empty_packet : packet_t :=
  {| p_layers := []; p_ts := 0; p_data := Unset |}.

(** Modelled from the spec: [packet_t::layer(index)]; negative indices count
    from the top of the stack, an absent layer is the null pointer. *)
Definition layer (p : packet_t) (n : Z) : option layer_type :=
  if n <? 0 then rev (p_layers p) !! Z.to_nat (- n - 1)
  else p_layers p !! Z.to_nat n.

(** Modelled from the spec: what the reader relies on in a
    [tcp_reassembler_t] / [udp_reassembler_t]: the listener it is bound to,
    its time cursor and the packets it retains. *)
Record reassembler_t := {
  r_listener : listener_t;
  r_now : Z;
  r_packets : list packet_ptr
}.

(** [new tcp_reassembler_t(listener)] / [new udp_reassembler_t(listener)] *)
Definition new_reassembler (l : listener_t) : reassembler_t :=
  {| r_listener := l; r_now := 0; r_packets := [] |}.

(** The exceptions of the code base.  [format_exception] is what the reader
    itself throws, [unknown_layer_t] is thrown by packet parsing, and
    [std_exception] stands for every other exception derived from
    [std::exception].  The first [catch] clause of [handle_packet] catches
    [unknown_layer_t], the second one catches the others. *)
Inductive exn :=
| format_exception (msg : string)
| unknown_layer_t (msg : string)
| std_exception (msg : string).

Definition what (e : exn) : string :=
  match e with
  | format_exception m | unknown_layer_t m | std_exception m => m
  end.

(** Calls that leave the reader. *)
Inductive call :=
| pcap_open_offline (fname : string)
| pcap_open_live (device : string) (snaplen : Z) (promisc : bool) (to_ms : Z)
| pcap_compile (h : pcap_t) (bpf : string)
| pcap_setfilter (h : pcap_t) (bpf : string)
| pcap_datalink (h : pcap_t)
| pcap_dispatch (h : pcap_t)
| pcap_close (h : pcap_t)
| begin_capture (l : listener_t) (name : string) (linktype snaplen : Z)
| accept (l : listener_t) (p : packet_ptr)
| accept_error (l : listener_t) (p : packet_ptr) (msg : string)
| tcp_set_listener (l : listener_t)
| udp_set_listener (l : listener_t)
| tcp_flush
| udp_flush
| tcp_set_now (ts : Z)
| udp_set_now (ts : Z)
| tcp_process (p : packet_ptr)
| udp_process (p : packet_ptr)
| packet_init (p : packet_ptr) (linktype : Z) (f : frame)
| packet_release (p : packet_ptr)
| packet_copy_data (p : packet_ptr).

(** What [packet_t::init] leaves behind: the layers it parsed (all of them,
    or those before the failure) and the value it stored through the
    [must_copy] pointer. *)
Record parsed := { parsed_layers : list layer_type; parsed_must_copy : bool }.

(** Everything outside the reader: the build configuration, libpcap, and
    the behaviour of packet parsing and of the collaborators' member
    functions.  [throws tr c] tells whether the call [c], made after the
    calls [tr], throws. *)
Record environment := {
  UNKNOWN_LAYER_AS_ERROR : bool;
  open_offline : string -> option pcap_t * string;
  open_live : string -> bool -> option pcap_t * string;
  compile_rc : pcap_t -> string -> Z;
  setfilter_rc : pcap_t -> string -> Z;
  pcap_geterr : pcap_t -> string;
  datalink : pcap_t -> Z;
  pcap_snapshot : pcap_t -> Z;
  captured : pcap_t -> list frame;
  dispatch_rc : pcap_t -> Z;
  parse : Z -> frame -> parsed;
  throws : list call -> call -> option exn
}.

(** The reader's members, the packet pool it inherits from
    [free_list_container_t<packet_t>], and the world around it: the packet
    objects, the handles libpcap holds open, and the calls made so far. *)
Record state := {
  d_pcap : option pcap_t;
  d_bpf : option string;
  d_linktype : Z;
  d_listener : listener_t;
  d_tcp_reassembler : option reassembler_t;
  d_udp_reassembler : option reassembler_t;
  d_free : list packet_ptr;
  d_objectcount : nat;
  packets : gmap packet_ptr packet_t;
  handles : list pcap_t;
  trace : list call
}.

Definition set_d_pcap (v : option pcap_t) (s : state) : state :=
  {| d_pcap := v; d_bpf := d_bpf s; d_linktype := d_linktype s;
     d_listener := d_listener s;
     d_tcp_reassembler := d_tcp_reassembler s;
     d_udp_reassembler := d_udp_reassembler s;
     d_free := d_free s; d_objectcount := d_objectcount s;
     packets := packets s; handles := handles s; trace := trace s |}.

Definition set_d_bpf (v : option string) (s : state) : state :=
  {| d_pcap := d_pcap s; d_bpf := v; d_linktype := d_linktype s;
     d_listener := d_listener s;
     d_tcp_reassembler := d_tcp_reassembler s;
     d_udp_reassembler := d_udp_reassembler s;
     d_free := d_free s; d_objectcount := d_objectcount s;
     packets := packets s; handles := handles s; trace := trace s |}.

Definition set_d_linktype (v : Z) (s : state) : state :=
  {| d_pcap := d_pcap s; d_bpf := d_bpf s; d_linktype := v;
     d_listener := d_listener s;
     d_tcp_reassembler := d_tcp_reassembler s;
     d_udp_reassembler := d_udp_reassembler s;
     d_free := d_free s; d_objectcount := d_objectcount s;
     packets := packets s; handles := handles s; trace := trace s |}.

Definition set_d_listener (v : listener_t) (s : state) : state :=
  {| d_pcap := d_pcap s; d_bpf := d_bpf s; d_linktype := d_linktype s;
     d_listener := v;
     d_tcp_reassembler := d_tcp_reassembler s;
     d_udp_reassembler := d_udp_reassembler s;
     d_free := d_free s; d_objectcount := d_objectcount s;
     packets := packets s; handles := handles s; trace := trace s |}.

Definition set_d_tcp_reassembler (v : option reassembler_t) (s : state) : state :=
  {| d_pcap := d_pcap s; d_bpf := d_bpf s; d_linktype := d_linktype s;
     d_listener := d_listener s;
     d_tcp_reassembler := v;
     d_udp_reassembler := d_udp_reassembler s;
     d_free := d_free s; d_objectcount := d_objectcount s;
     packets := packets s; handles := handles s; trace := trace s |}.

Definition set_d_udp_reassembler (v : option reassembler_t) (s : state) : state :=
  {| d_pcap := d_pcap s; d_bpf := d_bpf s; d_linktype := d_linktype s;
     d_listener := d_listener s;
     d_tcp_reassembler := d_tcp_reassembler s;
     d_udp_reassembler := v;
     d_free := d_free s; d_objectcount := d_objectcount s;
     packets := packets s; handles := handles s; trace := trace s |}.

Definition set_pool (fl : list packet_ptr) (n : nat) (s : state) : state :=
  {| d_pcap := d_pcap s; d_bpf := d_bpf s; d_linktype := d_linktype s;
     d_listener := d_listener s;
     d_tcp_reassembler := d_tcp_reassembler s;
     d_udp_reassembler := d_udp_reassembler s;
     d_free := fl; d_objectcount := n;
     packets := packets s; handles := handles s; trace := trace s |}.

Definition set_packets (m : gmap packet_ptr packet_t) (s : state) : state :=
  {| d_pcap := d_pcap s; d_bpf := d_bpf s; d_linktype := d_linktype s;
     d_listener := d_listener s;
     d_tcp_reassembler := d_tcp_reassembler s;
     d_udp_reassembler := d_udp_reassembler s;
     d_free := d_free s; d_objectcount := d_objectcount s;
     packets := m; handles := handles s; trace := trace s |}.

Definition set_handles (hs : list pcap_t) (s : state) : state :=
  {| d_pcap := d_pcap s; d_bpf := d_bpf s; d_linktype := d_linktype s;
     d_listener := d_listener s;
     d_tcp_reassembler := d_tcp_reassembler s;
     d_udp_reassembler := d_udp_reassembler s;
     d_free := d_free s; d_objectcount := d_objectcount s;
     packets := packets s; handles := hs; trace := trace s |}.

Definition set_trace (tr : list call) (s : state) : state :=
  {| d_pcap := d_pcap s; d_bpf := d_bpf s; d_linktype := d_linktype s;
     d_listener := d_listener s;
     d_tcp_reassembler := d_tcp_reassembler s;
     d_udp_reassembler := d_udp_reassembler s;
     d_free := d_free s; d_objectcount := d_objectcount s;
     packets := packets s; handles := handles s; trace := tr |}.

(** ** The monad of member functions *)

Inductive result (A : Type) :=
| Ok (a : A)
| Raise (e : exn)
| Abort.
Arguments Ok {A} a.
Arguments Raise {A} e.
Arguments Abort {A}.

Definition M (A : Type) : Type := state -> result A * state.

Definition ret {A} (a : A) : M A := fun s => (Ok a, s).

Definition bind {A B} (m : M A) (k : A -> M B) : M B := fun s =>
  match m s with
  | (Ok a, s') => k a s'
  | (Raise e, s') => (Raise e, s')
  | (Abort, s') => (Abort, s')
  end.

Definition raise {A} (e : exn) : M A := fun s => (Raise e, s).

Definition modify (f : state -> state) : M unit := fun s => (Ok tt, f s).

Notation "'do' x <- m ; k" := (bind m (fun x => k))
  (at level 10, x name, m at level 100, k at level 200,
   format "'[v' 'do'  x  <-  m ; '/' k ']'").
Notation "m >> k" := (bind m (fun _ => k))
  (at level 100, k at level 200, right associativity).

(** [try { body } catch (...) { handler }]: an exception thrown by the
    handler itself is not caught again. *)
Definition try_catch {A} (body : M A) (handler : exn -> M A) : M A := fun s =>
  match body s with
  | (Raise e, s') => handler e s'
  | out => out
  end.

(** The calls a computation makes from a given state: what it appends to
    the trace. *)
Definition calls_during {A} (m : M A) (s : state) : list call :=
  drop (length (trace s)) (trace (m s).2).

(** ** The reader *)

Section Reader.
Context (env : environment).

(** A call into libpcap (C code: it returns, it never throws). *)
Definition log (c : call) : M unit :=
  modify (fun s => set_trace (trace s ++ [c]) s).

(** A call of a member function of a collaborator: it is recorded, and it
    either returns or throws. *)
Definition ext (c : call) : M unit := fun s =>
  match throws env (trace s) c with
  | Some e => (Raise e, set_trace (trace s ++ [c]) s)
  | None => (Ok tt, set_trace (trace s ++ [c]) s)
  end.

(** *** The packet pool and the packet model *)

(** Modelled from the spec: [free_list_container_t<packet_t>::claim()],
    which pops the free list or constructs a new object, and hands the
    object out in a clean state. *)
Definition claim (s : state) : packet_ptr * state :=
  match d_free s with
  | p :: fl =>
      (p, set_packets (<[p := empty_packet]> (packets s))
            (set_pool fl (d_objectcount s) s))
  | [] =>
      let p := d_objectcount s in
      (p, set_packets (<[p := empty_packet]> (packets s))
            (set_pool [] (S p) s))
  end.

(** Modelled from the spec: [packet_t::release()], which puts the object
    back on the free list of its pool. *)
Definition packet_t_release (p : packet_ptr) : M unit :=
  ext (packet_release p) >>
  modify (fun s => set_pool (p :: d_free s) (d_objectcount s) s).

Definition own_data (pk : packet_t) : packet_t :=
  {| p_layers := p_layers pk; p_ts := p_ts pk; p_data := Owned |}.

(** Modelled from the spec: [packet_t::copy_data()], which copies the bytes
    of the packet into storage of its own. *)
Definition packet_t_copy_data (p : packet_ptr) : M unit :=
  ext (packet_copy_data p) >>
  modify (fun s => set_packets (alter own_data p (packets s)) s).

(** Modelled from the spec: the packet object that
    [packet_t::init(linktype, hdr, data, &must_copy)] builds.  It parses the
    frame into the layer stack and takes the timestamp of the header; the
    bytes stay in libpcap's buffer unless parsing resolved ownership itself,
    which it reports by clearing [must_copy]. *)
Definition parsed_packet (linktype : Z) (f : frame) : packet_t :=
  {| p_layers := parsed_layers (parse env linktype f);
     p_ts := tv_sec (hdr f);
     p_data := if parsed_must_copy (parse env linktype f)
               then Borrowed else Owned |}.

(** [packet->init(d_linktype, hdr, data, &must_copy)].  The first component
    is the value of the caller's [must_copy] afterwards, also when [init]
    throws. *)
Definition packet_t_init (p : packet_ptr) (linktype : Z) (f : frame)
    (s : state) : bool * (result unit * state) :=
  (parsed_must_copy (parse env linktype f),
   ext (packet_init p linktype f)
     (set_packets (<[p := parsed_packet linktype f]> (packets s)) s)).

(** [*packet], for a pointer handed out by [claim]. *)
Definition deref (p : packet_ptr) (s : state) : packet_t :=
  default empty_packet (packets s !! p).

(** *** The reassemblers *)

Definition with_now (ts : Z) (r : reassembler_t) : reassembler_t :=
  {| r_listener := r_listener r; r_now := ts; r_packets := r_packets r |}.

Definition with_packet (p : packet_ptr) (r : reassembler_t) : reassembler_t :=
  {| r_listener := r_listener r; r_now := r_now r;
     r_packets := r_packets r ++ [p] |}.

Definition with_listener (l : listener_t) (r : reassembler_t) : reassembler_t :=
  {| r_listener := l; r_now := r_now r; r_packets := r_packets r |}.

(** A pointer test, [if (d_tcp_reassembler)]. *)
Definition non_null {A} (o : option A) : bool :=
  match o with Some _ => true | None => false end.

(** [d_tcp_reassembler->set_now(ts)].  Modelled from the spec: the
    reassembler records the latest timestamp. *)
Definition tcp_reassembler_set_now (ts : Z) : M unit :=
  ext (tcp_set_now ts) >>
  modify (fun s => set_d_tcp_reassembler (with_now ts <$> d_tcp_reassembler s) s).

(** [d_udp_reassembler->set_now(ts)] *)
Definition udp_reassembler_set_now (ts : Z) : M unit :=
  ext (udp_set_now ts) >>
  modify (fun s => set_d_udp_reassembler (with_now ts <$> d_udp_reassembler s) s).

(** [d_tcp_reassembler->process(packet)].  Modelled from the spec: the
    reassembler takes the packet over. *)
Definition tcp_reassembler_process (p : packet_ptr) : M unit :=
  ext (tcp_process p) >>
  modify (fun s => set_d_tcp_reassembler (with_packet p <$> d_tcp_reassembler s) s).

(** [d_udp_reassembler->process(packet)] *)
Definition udp_reassembler_process (p : packet_ptr) : M unit :=
  ext (udp_process p) >>
  modify (fun s => set_d_udp_reassembler (with_packet p <$> d_udp_reassembler s) s).

(** [pcap_reader_t::enable_tcp_reassembly].  Of [delete] only the reset of
    the pointer is modelled: the destructor of the reassembler is not in
    this file, and what it does with the packets it holds leaves no mark
    here. *)
Definition enable_tcp_reassembly (en : bool) (s : state) : state :=
  match en, d_tcp_reassembler s with
  | true, None =>
      set_d_tcp_reassembler (Some (new_reassembler (d_listener s))) s
  | false, Some _ => set_d_tcp_reassembler None s
  | _, _ => s
  end.

(** [pcap_reader_t::enable_udp_reassembly]; [delete] as above. *)
Definition enable_udp_reassembly (en : bool) (s : state) : state :=
  match en, d_udp_reassembler s with
  | true, None =>
      set_d_udp_reassembler (Some (new_reassembler (d_listener s))) s
  | false, Some _ => set_d_udp_reassembler None s
  | _, _ => s
  end.

(** [pcap_reader_t::set_listener] *)
Definition set_listener (listener : listener_t) : M unit :=
  (fun s => if non_null (d_tcp_reassembler s)
            then (ext (tcp_set_listener listener) >>
                  modify (fun s => set_d_tcp_reassembler
                            (with_listener listener <$> d_tcp_reassembler s) s)) s
            else ret tt s) >>
  (fun s => if non_null (d_udp_reassembler s)
            then (ext (udp_set_listener listener) >>
                  modify (fun s => set_d_udp_reassembler
                            (with_listener listener <$> d_udp_reassembler s) s)) s
            else ret tt s) >>
  modify (set_d_listener listener).


(** *** The per-frame callback *)

Definition is_tcp (t : layer_type) : bool := layer_type_eqb t layer_tcp.
Definition is_udp (t : layer_type) : bool := layer_type_eqb t layer_udp.
Definition is_data (t : layer_type) : bool := layer_type_eqb t layer_data.

(** The two [set_now] statements. *)
Definition advance_time (packet : packet_ptr) : M unit :=
  (fun s => if non_null (d_tcp_reassembler s)
            then tcp_reassembler_set_now (p_ts (deref packet s)) s
            else ret tt s) >>
  (fun s => if non_null (d_udp_reassembler s)
            then udp_reassembler_set_now (p_ts (deref packet s)) s
            else ret tt s).

(** The [if] / [else if] chain on the two top layers. *)
Definition route (packet : packet_ptr) : M unit := fun s =>
  let top := layer (deref packet s) (-1) in
  let second := layer (deref packet s) (-2) in
  match top, second with
  | Some top, Some second =>
      if non_null (d_tcp_reassembler s) &&
           (is_tcp top || (is_data top && is_tcp second))
      then tcp_reassembler_process packet s
      else if non_null (d_udp_reassembler s) &&
                (is_udp top || (is_data top && is_udp second))
      then udp_reassembler_process packet s
      else ext (accept (d_listener s) packet) s
  | _, _ => ext (accept (d_listener s) packet) s
  end.

(** The [try] block.  The first component is [must_copy] when the block is
    left, normally or by an exception. *)
Definition try_block (packet : packet_ptr) (f : frame) (s : state)
    : bool * (result unit * state) :=
  let '(must_copy, (r, s1)) := packet_t_init packet (d_linktype s) f s in
  match r with
  | Ok _ => (must_copy, (advance_time packet >> route packet) s1)
  | _ => (must_copy, (r, s1))
  end.

(** The two [catch] clauses. *)
Definition catch_clauses (packet : packet_ptr) (e : exn) : M unit := fun s =>
  match e with
  | unknown_layer_t _ =>
      if UNKNOWN_LAYER_AS_ERROR env
      then ext (accept_error (d_listener s) packet (what e)) s
      else packet_t_release packet s
  | _ => ext (accept_error (d_listener s) packet (what e)) s
  end.

(** [pcap_reader_t::handle_packet] *)
Definition handle_packet (f : frame) : M unit := fun s =>
  let '(packet, s1) := claim s in
  let '(must_copy, out) := try_block packet f s1 in
  let '(r, s2) := match out with
                  | (Raise e, s') => catch_clauses packet e s'
                  | _ => out
                  end in
  match r with
  | Ok _ => if must_copy then packet_t_copy_data packet s2 else (Ok tt, s2)
  | _ => (r, s2)
  end.

(** *** The capture session *)

Fixpoint remove_first (h : pcap_t) (hs : list pcap_t) : list pcap_t :=
  match hs with
  | [] => []
  | h' :: hs' => if Nat.eqb h h' then hs' else h' :: remove_first h hs'
  end.

(** [pcap_close(h)] *)
Definition lib_close (h : pcap_t) (s : state) : state :=
  set_handles (remove_first h (handles s)) (set_trace (trace s ++ [pcap_close h]) s).

(** [~pcap_close_guard_t] *)
Definition close_guard_dtor (s : state) : state :=
  match d_pcap s with
  | Some h => set_d_pcap None (lib_close h s)
  | None => s
  end.

(** A scope that holds a [pcap_close_guard_t]: the destructor runs when the
    scope is left, by return or by exception; [Abort] ends the process
    without unwinding. *)
Definition with_close_guard {A} (body : M A) : M A := fun s =>
  match body s with
  | (Abort, s') => (Abort, s')
  | (r, s') => (r, close_guard_dtor s')
  end.

(** [pcap_reader_t::set_bpf] *)
Definition set_bpf (bpf : string) : M unit := fun s =>
  if String.eqb bpf "" then (Ok tt, s)
  else
    match d_pcap s with
    | None => (Abort, s)
    | Some h =>
        (log (pcap_compile h bpf) >>
         (if compile_rc env h bpf <? 0
          then raise (format_exception
                 ("Could not compile bpf filter '" +:+ bpf +:+ "', "
                    +:+ pcap_geterr env h))
          else
            modify (set_d_bpf (Some bpf)) >>
            log (pcap_setfilter h bpf) >>
            (if setfilter_rc env h bpf <? 0
             then raise (format_exception
                    ("Could not activate bpf filter '" +:+ bpf +:+ "', "
                       +:+ pcap_geterr env h))
             else ret tt))) s
    end.

(** Modelled from the spec: [snaplen()], the snap length discovered from
    the active handle (declared in the header). *)
Definition snaplen (s : state) : Z :=
  match d_pcap s with
  | Some h => pcap_snapshot env h
  | None => 0
  end.

(** What [open_file] and [open_live_capture] do once the handle is stored. *)
Definition start_capture (name bpf : string) (h : pcap_t) : M unit :=
  set_bpf bpf >>
  log (pcap_datalink h) >>
  modify (set_d_linktype (datalink env h)) >>
  (fun s => ext (begin_capture (d_listener s) name (d_linktype s) (snaplen s)) s).

(** [pcap_reader_t::open_file] *)
Definition open_file (fname bpf : string) : M unit := fun s =>
  match d_pcap s with
  | Some _ => (Raise (format_exception "Cannot open pcap while already busy"), s)
  | None =>
      (log (pcap_open_offline fname) >>
       match open_offline env fname with
       | (Some h, _) =>
           modify (fun s => set_d_pcap (Some h) (set_handles (h :: handles s) s)) >>
           start_capture fname bpf h
       | (None, errbuf) =>
           modify (set_d_pcap None) >>
           raise (format_exception
                    ("Could not open pcap '" +:+ fname +:+ "', " +:+ errbuf))
       end) s
  end.

(** [pcap_reader_t::close_file] *)
Definition close_file : M unit := fun s =>
  match d_pcap s with
  | None => (Raise (format_exception "Cannot close pcap without opened pcap"), s)
  | Some h => (Ok tt, set_d_pcap None (lib_close h s))
  end.

(** [pcap_reader_t::close_live_capture]: no null test; [pcap_close] on a
    null pointer crashes. *)
Definition close_live_capture : M unit := fun s =>
  match d_pcap s with
  | None => (Abort, s)
  | Some h => (Ok tt, set_d_pcap None (lib_close h s))
  end.

(** [pcap_reader_t::open_live_capture] *)
Definition open_live_capture (device : string) (promiscuous : bool)
    (bpf : string) : M unit :=
  log (pcap_open_live device 65536 promiscuous 1000) >>
  match open_live env device promiscuous with
  | (Some h, _) =>
      modify (fun s => set_d_pcap (Some h) (set_handles (h :: handles s) s)) >>
      start_capture device bpf h
  | (None, errbuf) =>
      modify (set_d_pcap None) >>
      raise (format_exception
               ("Could not capture '" +:+ device +:+ "', " +:+ errbuf))
  end.

(** The frames [pcap_dispatch] hands to the callback, one after the other;
    an exception leaving the callback ends the loop. *)
Fixpoint dispatch_frames (fs : list frame) : M unit :=
  match fs with
  | [] => ret tt
  | f :: fs' => handle_packet f >> dispatch_frames fs'
  end.

(** [pcap_reader_t::read_packets] *)
Definition read_packets : M unit := fun s =>
  match d_pcap s with
  | None => (Abort, s)
  | Some h =>
      (log (pcap_dispatch h) >>
       dispatch_frames (captured env h) >>
       (if dispatch_rc env h =? -1
        then raise (format_exception
                      ("Pcap reader failed, " +:+ pcap_geterr env h))
        else ret tt)) s
  end.

(** [pcap_reader_t::read_file] *)
Definition read_file (fname bpf : string) : M unit := fun s =>
  match d_pcap s with
  | Some _ => (Raise (format_exception "Cannot read pcap while already busy"), s)
  | None => with_close_guard (open_file fname bpf >> read_packets) s
  end.



(** [extra_callback_hop], the callback under [NO_MEMBER_CALLBACK]: [user] is
    the reader. *)
Definition extra_callback_hop (f : frame) : M unit := handle_packet f.

End Reader.

(** [pcap_reader_t::pcap_reader_t]: the constructor leaves [d_linktype]
    uninitialised; [junk] is whatever the member holds. *)
Definition pcap_reader_t (listener : listener_t) (junk : Z) : state :=
  enable_udp_reassembly true
    (enable_tcp_reassembly true
       {| d_pcap := None; d_bpf := None; d_linktype := junk;
          d_listener := listener;
          d_tcp_reassembler := None; d_udp_reassembler := None;
          d_free := []; d_objectcount := 0%nat;
          packets := ∅; handles := []; trace := [] |}).

(** ** Vocabulary of the statements *)

(** Every call of the class [P] returns, whatever happened before. *)
Definition returns_normally (env : environment) (P : call -> bool) : Prop :=
  forall tr c, P c = true -> throws env tr c = None.

(** The calls [handle_packet] makes outside its [try] block: the two
    handlers and the final copy. *)
Definition is_cleanup (c : call) : bool :=
  match c with
  | accept_error _ _ _ | packet_release _ | packet_copy_data _ => true
  | _ => false
  end.

Definition is_release (c : call) : bool :=
  match c with packet_release _ => true | _ => false end.

Definition is_tcp_process (c : call) : bool :=
  match c with tcp_process _ => true | _ => false end.

(** A call of the consumer's [accept] or [accept_error]. *)
Definition is_delivery (c : call) : bool :=
  match c with accept _ _ | accept_error _ _ _ => true | _ => false end.

(** The call the [catch] clauses make for the exception [e]. *)
Definition handler_call (env : environment) (l : listener_t) (p : packet_ptr)
    (e : exn) : call :=
  match e with
  | unknown_layer_t m =>
      if UNKNOWN_LAYER_AS_ERROR env then accept_error l p m else packet_release p
  | _ => accept_error l p (what e)
  end.

(** The exception [e] was thrown by the last call of [tr], and that call is
    one of the handlers or the final copy. *)
Definition thrown_by_cleanup (env : environment) (tr : list call) (e : exn) : Prop :=
  exists before c,
    tr = before ++ [c] /\ is_cleanup c = true /\ throws env before c = Some e.

(** No packet object points into libpcap's frame buffer. *)
Definition no_borrowed (s : state) : Prop :=
  forall q pk, packets s !! q = Some pk -> p_data pk <> Borrowed.

(** "The top layer is TCP, or it is data directly above TCP". *)
Definition tcp_on_top (ls : list layer_type) : bool :=
  match rev ls with
  | layer_tcp :: _ => true
  | layer_data :: layer_tcp :: _ => true
  | _ => false
  end.

(** The reader's "already busy" exception of [read_file]. *)
Definition AlreadyOpen : exn :=
  format_exception "Cannot read pcap while already busy".

(** The session of the reader: its handle and what libpcap holds open. *)
Definition session (s : state) : option pcap_t * list pcap_t :=
  (d_pcap s, handles s).

(** ** A concrete environment

    One capture file that opens as handle 7 (unless it is called
    [missing.pcap]), one live device that opens as handle 8; every frame
    parses to the layers [ls] with [must_copy] left at [mc]. *)
Definition quiet : list call -> call -> option exn := fun _ _ => None.

Definition demo_env (ls : list layer_type) (mc : bool)
    (thr : list call -> call -> option exn) (fs : list frame) : environment :=
  {| UNKNOWN_LAYER_AS_ERROR := false;
     open_offline := fun f =>
       if String.eqb f "missing.pcap" then (None, "No such file")
       else (Some 7%nat, "");
     open_live := fun _ _ => (Some 8%nat, "");
     compile_rc := fun _ _ => 0;
     setfilter_rc := fun _ _ => 0;
     pcap_geterr := fun _ => "error";
     datalink := fun _ => 1;
     pcap_snapshot := fun _ => 65535;
     captured := fun _ => fs;
     dispatch_rc := fun _ => 0;
     parse := fun _ _ => {| parsed_layers := ls; parsed_must_copy := mc |};
     throws := thr |}.

Definition demo_frame : frame :=
  {| hdr := {| tv_sec := 100; caplen := 60; len := 60 |}; data := [] |}.

(** Parsing fails with an unknown layer; everything else returns. *)
Definition unknown_layer_only : list call -> call -> option exn := fun _ c =>
  match c with
  | packet_init _ _ _ => Some (unknown_layer_t "unknown layer")
  | _ => None
  end.

(** Parsing fails with a structural error; everything else returns. *)
Definition malformed_only : list call -> call -> option exn := fun _ c =>
  match c with
  | packet_init _ _ _ => Some (format_exception "truncated header")
  | _ => None
  end.

(** A capture of one Ethernet/IP/TCP/payload frame; a capture whose frames
    parse to a lone TCP layer; captures whose frames do not parse. *)
Definition tcp_env : environment :=
  demo_env [layer_other 1; layer_other 2; layer_tcp; layer_data] true quiet [demo_frame].
Definition lone_tcp_env : environment :=
  demo_env [layer_tcp] true quiet [demo_frame].
Definition unknown_env : environment :=
  demo_env [layer_other 1] true unknown_layer_only [demo_frame].
Definition malformed_env : environment :=
  demo_env [layer_other 1] true malformed_only [demo_frame].

(** Parsing fails, and the listener throws when it is told of it. *)
Definition listener_fails : list call -> call -> option exn := fun _ c =>
  match c with
  | packet_init _ _ _ => Some (format_exception "truncated header")
  | accept_error _ _ _ => Some (std_exception "listener failed")
  | _ => None
  end.

(** [tcp_env] with a filter that does not compile, with a read loop that
    fails, and with the listener of [listener_fails]. *)
Definition with_failures (filter_rc loop_rc : Z)
    (thr : list call -> call -> option exn) : environment :=
  {| UNKNOWN_LAYER_AS_ERROR := UNKNOWN_LAYER_AS_ERROR tcp_env;
     open_offline := open_offline tcp_env;
     open_live := open_live tcp_env;
     compile_rc := fun _ _ => filter_rc;
     setfilter_rc := setfilter_rc tcp_env;
     pcap_geterr := pcap_geterr tcp_env;
     datalink := datalink tcp_env;
     pcap_snapshot := pcap_snapshot tcp_env;
     captured := captured tcp_env;
     dispatch_rc := fun _ => loop_rc;
     parse := parse tcp_env;
     throws := thr |}.

(** A reader that has just been constructed, and one with a live capture
    open on handle 3. *)
Definition idle_reader : state := pcap_reader_t 1%nat 0.
Definition busy_reader : state :=
  set_handles [3%nat] (set_d_pcap (Some 3%nat) idle_reader).

(** ** More vocabulary: the calls by kind, the wiring of the reader *)

(** "The top layer is UDP, or it is data directly above UDP". *)
Definition udp_on_top (ls : list layer_type) : bool :=
  match rev ls with
  | layer_udp :: _ => true
  | layer_data :: layer_udp :: _ => true
  | _ => false
  end.

Definition is_init (c : call) : bool :=
  match c with packet_init _ _ _ => true | _ => false end.

Definition is_set_now (c : call) : bool :=
  match c with tcp_set_now _ | udp_set_now _ => true | _ => false end.

Definition is_udp_process (c : call) : bool :=
  match c with udp_process _ => true | _ => false end.

Definition is_accept (c : call) : bool :=
  match c with accept _ _ => true | _ => false end.


(** The calls of the [if] / [else if] chain: the three ways a parsed packet
    is handed on. *)
Definition is_routing (c : call) : bool :=
  match c with accept _ _ | tcp_process _ | udp_process _ => true | _ => false end.

(** The calls that give the packet of a frame to somebody: the listener, a
    reassembler, or the pool. *)
Definition is_sink (c : call) : bool :=
  match c with
  | accept _ _ | accept_error _ _ _ | tcp_process _ | udp_process _
  | packet_release _ => true
  | _ => false
  end.

(** A call of the listener. *)
Definition is_listener_call (c : call) : bool :=
  match c with
  | begin_capture _ _ _ _ | accept _ _ | accept_error _ _ _ => true
  | _ => false
  end.

(** A call into libpcap. *)
Definition is_pcap_call (c : call) : bool :=
  match c with
  | pcap_open_offline _ | pcap_open_live _ _ _ _ | pcap_compile _ _
  | pcap_setfilter _ _ | pcap_datalink _ | pcap_dispatch _ | pcap_close _ => true
  | _ => false
  end.

(** The exceptions of [open_file] on a busy reader and of [close_file] on an
    idle one. *)
Definition AlreadyOpenFile : exn :=
  format_exception "Cannot open pcap while already busy".
Definition NotOpen : exn :=
  format_exception "Cannot close pcap without opened pcap".

(** Who delivers to whom: the reader's listener and the listener of each
    active reassembler. *)
Definition bindings (s : state)
    : listener_t * option listener_t * option listener_t :=
  (d_listener s,
   r_listener <$> d_tcp_reassembler s,
   r_listener <$> d_udp_reassembler s).

(** Every active reassembler delivers to the reader's listener. *)
Definition listeners_agree (s : state) : Prop :=
  (forall r, d_tcp_reassembler s = Some r -> r_listener r = d_listener s) /\
  (forall r, d_udp_reassembler s = Some r -> r_listener r = d_listener s).

(** What a packet on its way through the reader must not change: the
    session, the filter, the link type, and who delivers to whom (hence also
    which reassemblers exist). *)
Definition wiring (s : state) :=
  (d_pcap s, handles s, d_bpf s, d_linktype s, bindings s).

(** A capture with frames of four kinds, told apart by their first byte:
    ARP (one layer), Ethernet/IP/TCP/payload, Ethernet/IP/UDP/payload, and
    frames with a truncated header, which parsing rejects. *)
Definition frame_of_kind (k : Z) : frame :=
  {| hdr := {| tv_sec := 100; caplen := 60; len := 60 |}; data := [k] |}.

Definition arp_frame : frame := frame_of_kind 1.
Definition tcp_frame : frame := frame_of_kind 2.
Definition udp_frame : frame := frame_of_kind 3.
Definition bad_frame : frame := frame_of_kind 4.

Definition kind (f : frame) : Z := hd 0 (data f).

Definition mixed_layers (f : frame) : list layer_type :=
  if kind f =? 2 then [layer_other 1; layer_other 2; layer_tcp; layer_data]
  else if kind f =? 3 then [layer_other 1; layer_other 2; layer_udp; layer_data]
  else [layer_other 1].

Definition rejects_truncated : list call -> call -> option exn := fun _ c =>
  match c with
  | packet_init _ _ f =>
      if kind f =? 4 then Some (format_exception "truncated header") else None
  | _ => None
  end.

Definition mixed_env : environment :=
  {| UNKNOWN_LAYER_AS_ERROR := false;
     open_offline := fun _ => (Some 7%nat, "");
     open_live := fun _ _ => (Some 8%nat, "");
     compile_rc := fun _ _ => 0;
     setfilter_rc := fun _ _ => 0;
     pcap_geterr := fun _ => "error";
     datalink := fun _ => 1;
     pcap_snapshot := fun _ => 65535;
     captured := fun _ => [arp_frame; tcp_frame; bad_frame];
     dispatch_rc := fun _ => 0;
     parse := fun _ f =>
       {| parsed_layers := mixed_layers f; parsed_must_copy := true |};
     throws := rejects_truncated |}.

(** The reader after the ARP frame of that capture. *)
Definition after_arp : state := (handle_packet mixed_env arp_frame idle_reader).2.

(** A reader with both reassemblers switched off. *)
Definition plain_reader : state :=
  enable_udp_reassembly false (enable_tcp_reassembly false idle_reader).

(** ** Frame conditions

    [keeps proj m]: running [m] leaves the part [proj] of the state alone.
    [never_aborts m]: [m] returns or throws, no assertion fails in it. *)
Definition keeps {A B} (proj : state -> B) (m : M A) : Prop :=
  forall s, proj (m s).2 = proj s.

Definition never_aborts {A} (m : M A) : Prop :=
  forall s, (m s).1 <> Abort.

(** A part of the state that does not include the trace. *)
Definition off_trace {B} (proj : state -> B) : Prop :=
  forall tr s, proj (set_trace tr s) = proj s.

(** [appends m]: [m] only ever adds calls at the end of the trace. *)
Definition appends {A} (m : M A) : Prop :=
  forall s, exists d : list call, trace (m s).2 = trace s ++ d.

(** A part of the state that is neither the trace, nor a reassembler, nor the
    pool: the part the routing of a packet cannot reach. *)
Definition passive {B} (proj : state -> B) : Prop :=
  off_trace proj /\
  (forall v s, proj (set_d_tcp_reassembler v s) = proj s) /\
  (forall v s, proj (set_d_udp_reassembler v s) = proj s) /\
  (forall fl n s, proj (set_pool fl n s) = proj s).

(** A part of the state that is neither a packet object nor the pool. *)
Definition off_packets {B} (proj : state -> B) : Prop :=
  (forall m s, proj (set_packets m s) = proj s) /\
  (forall fl n s, proj (set_pool fl n s) = proj s).

(** A part of the state that the session functions do not write: not the
    handle, the filter, the link type, libpcap's handles or the trace. *)
Definition off_session {B} (proj : state -> B) : Prop :=
  off_trace proj /\
  (forall v s, proj (set_d_pcap v s) = proj s) /\
  (forall v s, proj (set_d_bpf v s) = proj s) /\
  (forall v s, proj (set_d_linktype v s) = proj s) /\
  (forall hs s, proj (set_handles hs s) = proj s).

(** ** The monad *)

Section MonadFacts.
Context (env : environment).

Lemma bind_unfold {A B} (m : M A) (k : A -> M B) s :
  bind m k s = match m s with
               | (Ok a, s') => k a s'
               | (Raise e, s') => (Raise e, s')
               | (Abort, s') => (Abort, s')
               end.
Proof. reflexivity. Qed.

Lemma ext_state c s : (ext env c s).2 = set_trace (trace s ++ [c]) s.
Proof. unfold ext. now destruct (throws env (trace s) c). Qed.

Lemma ext_result c s :
  (ext env c s).1 = match throws env (trace s) c with
                    | Some e => Raise e
                    | None => Ok tt
                    end.
Proof. unfold ext. now destruct (throws env (trace s) c). Qed.

Lemma ext_returns P c s :
  returns_normally env P -> P c = true -> ext env c s = (Ok tt, set_trace (trace s ++ [c]) s).
Proof. intros H Hc. unfold ext. now rewrite (H _ _ Hc). Qed.

Lemma keeps_ret {A B} (proj : state -> B) (a : A) : keeps proj (ret a).
Proof. now intros s. Qed.

Lemma keeps_raise {A B} (proj : state -> B) e : keeps proj (@raise A e).
Proof. now intros s. Qed.

Lemma keeps_modify {B} (proj : state -> B) f :
  (forall s, proj (f s) = proj s) -> keeps proj (modify f).
Proof. intros H s. apply H. Qed.

Lemma keeps_bind {A B C} (proj : state -> C) (m : M A) (k : A -> M B) :
  keeps proj m -> (forall a, keeps proj (k a)) -> keeps proj (bind m k).
Proof.
  intros Hm Hk s. rewrite bind_unfold.
  specialize (Hm s). destruct (m s) as [[a| |] s']; cbn in *; try assumption.
  now rewrite Hk.
Qed.

Lemma keeps_log {B} (proj : state -> B) c : off_trace proj -> keeps proj (log c).
Proof. intros H s. apply H. Qed.

Lemma keeps_ext {B} (proj : state -> B) c : off_trace proj -> keeps proj (ext env c).
Proof. intros H s. rewrite ext_state. apply H. Qed.

Lemma keeps_guarded {A B} (proj : state -> B) (b : state -> bool) (m k : M A) :
  keeps proj m -> keeps proj k -> keeps proj (fun s => if b s then m s else k s).
Proof. intros Hm Hk s. cbn. destruct (b s); [apply Hm | apply Hk]. Qed.

Lemma never_aborts_ret {A} (a : A) : never_aborts (ret a).
Proof. now intros s. Qed.

Lemma never_aborts_raise {A} e : never_aborts (@raise A e).
Proof. now intros s. Qed.

Lemma never_aborts_modify f : never_aborts (modify f).
Proof. now intros s. Qed.

Lemma never_aborts_log c : never_aborts (log c).
Proof. now intros s. Qed.

Lemma never_aborts_ext c : never_aborts (ext env c).
Proof. intros s. rewrite ext_result. now destruct (throws env (trace s) c). Qed.

Lemma never_aborts_bind {A B} (m : M A) (k : A -> M B) :
  never_aborts m -> (forall a, never_aborts (k a)) -> never_aborts (bind m k).
Proof.
  intros Hm Hk s. rewrite bind_unfold.
  specialize (Hm s). destruct (m s) as [[a| |] s']; cbn in *; try easy.
  apply Hk.
Qed.

Lemma never_aborts_guarded {A} (b : state -> bool) (m k : M A) :
  never_aborts m -> never_aborts k -> never_aborts (fun s => if b s then m s else k s).
Proof. intros Hm Hk s. cbn. destruct (b s); [apply Hm | apply Hk]. Qed.

End MonadFacts.

Ltac frame :=
  repeat match goal with
    | |- keeps _ (bind _ _) => apply keeps_bind
    | |- keeps _ (ret _) => apply keeps_ret
    | |- keeps _ (raise _) => apply keeps_raise
    | |- keeps _ (ext _ _) => apply keeps_ext
    | |- keeps _ (log _) => apply keeps_log
    | |- keeps _ (modify _) => apply keeps_modify
    | |- keeps _ (fun s => if _ then _ else _) => apply keeps_guarded
    | |- off_trace _ => first [ assumption | intros ? ?; reflexivity ]
    | |- forall _, _ => intro
    end.

Ltac total :=
  repeat match goal with
    | |- never_aborts (bind _ _) => apply never_aborts_bind
    | |- never_aborts (ret _) => apply never_aborts_ret
    | |- never_aborts (raise _) => apply never_aborts_raise
    | |- never_aborts (ext _ _) => apply never_aborts_ext
    | |- never_aborts (log _) => apply never_aborts_log
    | |- never_aborts (modify _) => apply never_aborts_modify
    | |- never_aborts (fun s => if _ then _ else _) => apply never_aborts_guarded
    | |- forall _ : unit, _ => intro
    end.

(** ** The reassembler switches *)

(** C8. [enable_tcp_reassembly] and [enable_udp_reassembly] are idempotent:
    a call with the current enablement changes nothing; enabling from
    disabled constructs a reassembler bound to the current listener;
    disabling destroys it; disabling and enabling again yields a fresh
    reassembler, whatever the old one held. *)
Theorem enable_reassembly_idempotent_fresh (s : state) (en : bool) :
  (enable_tcp_reassembly (non_null (d_tcp_reassembler s)) s = s /\
   enable_tcp_reassembly en (enable_tcp_reassembly en s) = enable_tcp_reassembly en s /\
   d_tcp_reassembler (enable_tcp_reassembly true (set_d_tcp_reassembler None s))
     = Some (new_reassembler (d_listener s)) /\
   d_tcp_reassembler (enable_tcp_reassembly false s) = None /\
   d_tcp_reassembler (enable_tcp_reassembly true (enable_tcp_reassembly false s))
     = Some (new_reassembler (d_listener s))) /\
  (enable_udp_reassembly (non_null (d_udp_reassembler s)) s = s /\
   enable_udp_reassembly en (enable_udp_reassembly en s) = enable_udp_reassembly en s /\
   d_udp_reassembler (enable_udp_reassembly true (set_d_udp_reassembler None s))
     = Some (new_reassembler (d_listener s)) /\
   d_udp_reassembler (enable_udp_reassembly false s) = None /\
   d_udp_reassembler (enable_udp_reassembly true (enable_udp_reassembly false s))
     = Some (new_reassembler (d_listener s))).
Proof.
  unfold enable_tcp_reassembly, enable_udp_reassembly.
  destruct s as [pc bp lt li [rt|] [ru|] fl oc pk hs tr], en; cbn; repeat split.
Qed.

(** C9. Right after construction both reassemblers exist, each bound to the
    listener given to the constructor, with nothing buffered; no handle is
    open. *)
Theorem constructor_enables_both_reassemblers (listener : listener_t) (junk : Z) :
  d_tcp_reassembler (pcap_reader_t listener junk) = Some (new_reassembler listener) /\
  d_udp_reassembler (pcap_reader_t listener junk) = Some (new_reassembler listener) /\
  d_listener (pcap_reader_t listener junk) = listener /\
  d_pcap (pcap_reader_t listener junk) = None.
Proof. repeat split. Qed.

(** ** What the callback cannot reach *)

Section CallbackFacts.
Context (env : environment).

Lemma passive_session : passive session.
Proof. repeat split. Qed.

Lemma passive_packets : passive packets.
Proof. repeat split. Qed.

Lemma passive_off_trace {B} (proj : state -> B) : passive proj -> off_trace proj.
Proof. now intros [H _]. Qed.

Section Passive.
Context {B : Type} (proj : state -> B) (Hp : passive proj).

Let Htrace : off_trace proj := passive_off_trace proj Hp.

Lemma keeps_release p : keeps proj (packet_t_release env p).
Proof. unfold packet_t_release. destruct Hp as (? & ? & ? & ?). frame; auto. Qed.

Lemma keeps_tcp_set_now ts : keeps proj (tcp_reassembler_set_now env ts).
Proof. unfold tcp_reassembler_set_now. destruct Hp as (? & ? & ? & ?). frame; auto. Qed.

Lemma keeps_udp_set_now ts : keeps proj (udp_reassembler_set_now env ts).
Proof. unfold udp_reassembler_set_now. destruct Hp as (? & ? & ? & ?). frame; auto. Qed.

Lemma keeps_tcp_process p : keeps proj (tcp_reassembler_process env p).
Proof. unfold tcp_reassembler_process. destruct Hp as (? & ? & ? & ?). frame; auto. Qed.

Lemma keeps_udp_process p : keeps proj (udp_reassembler_process env p).
Proof. unfold udp_reassembler_process. destruct Hp as (? & ? & ? & ?). frame; auto. Qed.

Lemma keeps_advance_time p : keeps proj (advance_time env p).
Proof.
  unfold advance_time. apply keeps_bind; [|intros _].
  - intros s. destruct (non_null _); [apply keeps_tcp_set_now | reflexivity].
  - intros s. destruct (non_null _); [apply keeps_udp_set_now | reflexivity].
Qed.

Lemma keeps_route p : keeps proj (route env p).
Proof.
  intros s. unfold route.
  repeat case_match;
    first [ apply keeps_tcp_process | apply keeps_udp_process
          | apply keeps_ext, Htrace ].
Qed.

Lemma keeps_catch_clauses p e : keeps proj (catch_clauses env p e).
Proof.
  intros s. unfold catch_clauses.
  repeat case_match; first [ apply keeps_release | apply keeps_ext, Htrace ].
Qed.

End Passive.

Lemma never_aborts_set_now ts :
  never_aborts (tcp_reassembler_set_now env ts) /\
  never_aborts (udp_reassembler_set_now env ts).
Proof. split; [unfold tcp_reassembler_set_now | unfold udp_reassembler_set_now]; total. Qed.

Lemma never_aborts_advance_time p : never_aborts (advance_time env p).
Proof.
  unfold advance_time.
  apply never_aborts_bind; [|intros _]; intros s; destruct (non_null _);
    solve [ discriminate | apply never_aborts_set_now ].
Qed.

Lemma never_aborts_route p : never_aborts (route env p).
Proof.
  intros s. unfold route, tcp_reassembler_process, udp_reassembler_process.
  repeat case_match;
    first [ apply never_aborts_ext | apply never_aborts_bind; total ].
Qed.

Lemma never_aborts_catch_clauses p e : never_aborts (catch_clauses env p e).
Proof.
  intros s. unfold catch_clauses, packet_t_release.
  repeat case_match;
    first [ apply never_aborts_ext | apply never_aborts_bind; total ].
Qed.

Lemma never_aborts_copy_data p : never_aborts (packet_t_copy_data env p).
Proof. unfold packet_t_copy_data. total. Qed.

End CallbackFacts.

(** ** The trace only grows *)

Section TraceFacts.
Context (env : environment).

Lemma calls_during_spec {A} (m : M A) s d :
  trace (m s).2 = trace s ++ d -> calls_during m s = d.
Proof. intros H. unfold calls_during. rewrite H. apply drop_app_length. Qed.

Lemma appends_ret {A} (a : A) : appends (ret a).
Proof. intros s. exists []. cbn. now rewrite app_nil_r. Qed.

Lemma appends_raise {A} e : appends (@raise A e).
Proof. intros s. exists []. cbn. now rewrite app_nil_r. Qed.

Lemma appends_modify f : (forall s, trace (f s) = trace s) -> appends (modify f).
Proof. intros H s. exists []. cbn. now rewrite H, app_nil_r. Qed.

Lemma appends_log c : appends (log c).
Proof. intros s. now exists [c]. Qed.

Lemma appends_ext c : appends (ext env c).
Proof. intros s. exists [c]. now rewrite ext_state. Qed.

Lemma appends_bind {A B} (m : M A) (k : A -> M B) :
  appends m -> (forall a, appends (k a)) -> appends (bind m k).
Proof.
  intros Hm Hk s. rewrite bind_unfold.
  destruct (Hm s) as [d Hd]. destruct (m s) as [[a| |] s']; cbn in *; eauto.
  destruct (Hk a s') as [d' Hd']. exists (d ++ d').
  now rewrite Hd', Hd, app_assoc.
Qed.

Lemma appends_release p : appends (packet_t_release env p).
Proof.
  unfold packet_t_release. apply appends_bind; [apply appends_ext|].
  intros _. now apply appends_modify.
Qed.

Lemma appends_copy_data p : appends (packet_t_copy_data env p).
Proof.
  unfold packet_t_copy_data. apply appends_bind; [apply appends_ext|].
  intros _. now apply appends_modify.
Qed.

Lemma appends_set_now ts :
  appends (tcp_reassembler_set_now env ts) /\
  appends (udp_reassembler_set_now env ts).
Proof.
  split; (apply appends_bind; [apply appends_ext|]);
    intros _; now apply appends_modify.
Qed.

Lemma appends_process p :
  appends (tcp_reassembler_process env p) /\
  appends (udp_reassembler_process env p).
Proof.
  split; (apply appends_bind; [apply appends_ext|]);
    intros _; now apply appends_modify.
Qed.

Lemma appends_advance_time p : appends (advance_time env p).
Proof.
  unfold advance_time.
  apply appends_bind; [|intros _]; intros s; destruct (non_null _);
    solve [ apply appends_set_now | apply (appends_ret tt) ].
Qed.

Lemma appends_route p : appends (route env p).
Proof.
  intros s. unfold route.
  repeat case_match; first [ apply appends_process | apply appends_ext ].
Qed.

Lemma appends_catch_clauses p e : appends (catch_clauses env p e).
Proof.
  intros s. unfold catch_clauses.
  repeat case_match; first [ apply appends_release | apply appends_ext ].
Qed.

End TraceFacts.

(** ** The callback, piece by piece *)

Section HandlePacketFacts.
Context (env : environment).

Lemma claim_unfold s :
  (claim s).2 =
    set_packets (<[(claim s).1 := empty_packet]> (packets s))
      (set_pool (tail (d_free s))
         (match d_free s with [] => S (d_objectcount s) | _ => d_objectcount s end) s).
Proof. unfold claim. now destruct (d_free s). Qed.

Lemma claim_trace s : trace (claim s).2 = trace s.
Proof. now rewrite claim_unfold. Qed.

Lemma claim_session s : session (claim s).2 = session s.
Proof. now rewrite claim_unfold. Qed.

Lemma claim_packets s :
  packets (claim s).2 = <[(claim s).1 := empty_packet]> (packets s).
Proof. now rewrite claim_unfold. Qed.

Lemma claim_reader s :
  d_linktype (claim s).2 = d_linktype s /\
  d_listener (claim s).2 = d_listener s /\
  d_tcp_reassembler (claim s).2 = d_tcp_reassembler s /\
  d_udp_reassembler (claim s).2 = d_udp_reassembler s.
Proof. now rewrite claim_unfold. Qed.

(** What is known of the [try] block whatever the collaborators do: it
    starts with the call of [init], it leaves the parsed packet in place,
    it does not touch the session, and [must_copy] is what [init] stored. *)
Lemma try_block_facts p f s :
  let t := try_block env p f s in
  t.1 = parsed_must_copy (parse env (d_linktype s) f) /\
  t.2.1 <> Abort /\
  (exists d, trace t.2.2 = trace s ++ packet_init p (d_linktype s) f :: d) /\
  packets t.2.2 = <[p := parsed_packet env (d_linktype s) f]> (packets s) /\
  session t.2.2 = session s /\
  d_listener t.2.2 = d_listener s.
Proof.
  unfold try_block, packet_t_init.
  set (m := advance_time env p >> route env p).
  assert (Hk : forall {B} (proj : state -> B), passive proj -> keeps proj m).
  { intros B proj Hp. apply keeps_bind; [now apply keeps_advance_time|].
    intros _. now apply keeps_route. }
  assert (Ha : appends m).
  { apply appends_bind; [apply appends_advance_time|]. intros _. apply appends_route. }
  assert (Hn : never_aborts m).
  { apply never_aborts_bind; [apply never_aborts_advance_time|].
    intros _. apply never_aborts_route. }
  assert (Hl : keeps d_listener m).
  { apply (Hk _ d_listener). repeat split. }
  clearbody m. unfold ext. cbn.
  destruct (throws env (trace s) _) as [e|]; cbn.
  { repeat split; try easy. now exists []. }
  match goal with |- context [m ?x] => set (s2 := x) end.
  destruct (Ha s2) as [d Hd].
  repeat split.
  - apply Hn.
  - exists d. rewrite Hd. subst s2. cbn. now rewrite <- app_assoc.
  - now rewrite (Hk _ packets passive_packets s2).
  - now rewrite (Hk _ session passive_session s2).
  - now rewrite (Hl s2).
Qed.

(** [handle_packet] as the sequence of its three stages. *)
Lemma handle_packet_stages f s :
  handle_packet env f s =
    let p := (claim s).1 in
    let t := try_block env p f (claim s).2 in
    let h := match t.2 with
             | (Raise e, s') => catch_clauses env p e s'
             | out => out
             end in
    match h.1 with
    | Ok _ => if t.1 then packet_t_copy_data env p h.2 else (Ok tt, h.2)
    | Raise e => (Raise e, h.2)
    | Abort => (Abort, h.2)
    end.
Proof.
  unfold handle_packet. destruct (claim s) as [p s1]. cbn [fst snd].
  destruct (try_block env p f s1) as [mc [[[]|e|] s2]]; cbn [fst snd];
    try reflexivity.
  now destruct (catch_clauses env p e s2) as [[[]|e'|] s3].
Qed.

Lemma catch_clauses_outcome p e s :
  let c := handler_call env (d_listener s) p e in
  is_cleanup c = true /\
  trace (catch_clauses env p e s).2 = trace s ++ [c] /\
  (catch_clauses env p e s).1 =
    match throws env (trace s) c with Some e' => Raise e' | None => Ok tt end.
Proof.
  unfold catch_clauses, handler_call, packet_t_release.
  destruct e; [| destruct (UNKNOWN_LAYER_AS_ERROR env) |];
    rewrite ?bind_unfold; unfold ext; cbn [what];
    match goal with |- context [throws env ?tr ?c] => destruct (throws env tr c) end;
    repeat split.
Qed.

Lemma copy_data_outcome p s :
  trace (packet_t_copy_data env p s).2 = trace s ++ [packet_copy_data p] /\
  match throws env (trace s) (packet_copy_data p) with
  | Some e' => (packet_t_copy_data env p s).1 = Raise e'
  | None => (packet_t_copy_data env p s).1 = Ok tt /\
            packets (packet_t_copy_data env p s).2 = alter own_data p (packets s)
  end.
Proof.
  unfold packet_t_copy_data. rewrite bind_unfold. unfold ext.
  destruct (throws env (trace s) (packet_copy_data p)); repeat split.
Qed.

(** The callback in full.  After the [try] block come the call of a handler,
    when the block threw, and [copy_data], when [must_copy] is still set.  An
    exception that leaves the callback was thrown by one of these two calls;
    a callback that returns has made both; and it returns whenever they
    do. *)
Lemma handle_packet_outcome f s :
  let p := (claim s).1 in
  let t := try_block env p f (claim s).2 in
  let out := handle_packet env f s in
  out.1 <> Abort /\
  (exists rest,
     trace out.2 =
       trace t.2.2 ++
       match t.2.1 with
       | Raise e => [handler_call env (d_listener s) p e]
       | _ => []
       end ++ rest) /\
  (forall e, out.1 = Raise e -> thrown_by_cleanup env (trace out.2) e) /\
  (out.1 = Ok tt ->
     (if t.1 then last (trace out.2) = Some (packet_copy_data p) else True) /\
     packets out.2 =
       (if t.1 then alter own_data p (packets t.2.2) else packets t.2.2)) /\
  (returns_normally env is_cleanup -> out.1 = Ok tt).
Proof.
  cbv zeta. rewrite handle_packet_stages. cbv zeta.
  pose proof (try_block_facts (claim s).1 f (claim s).2) as HF. cbv zeta in HF.
  destruct HF as (_ & Hab & _ & _ & _ & Hli).
  destruct (claim_reader s) as (_ & Hli' & _). rewrite Hli' in Hli. clear Hli'.
  set (p := (claim s).1) in *.
  destruct (try_block env p f (claim s).2) as [mc [r s2]]. cbn [fst snd] in *.
  (* the stage after the handlers *)
  assert (Hcopy : forall s3 (handled : list call),
    trace s3 = trace s2 ++ handled ->
    packets s3 = packets s2 ->
    let out := if mc then packet_t_copy_data env p s3 else (Ok tt, s3) in
    out.1 <> Abort /\
    (exists rest, trace out.2 = trace s2 ++ handled ++ rest) /\
    (forall e, out.1 = Raise e -> thrown_by_cleanup env (trace out.2) e) /\
    (out.1 = Ok tt ->
       (if mc then last (trace out.2) = Some (packet_copy_data p) else True) /\
       packets out.2 = (if mc then alter own_data p (packets s2) else packets s2)) /\
    (returns_normally env is_cleanup -> out.1 = Ok tt)).
  { intros s3 handled Htr Hpk. cbv zeta. destruct mc; cbn [fst snd].
    - destruct (copy_data_outcome p s3) as [Hc Hres].
      destruct (throws env (trace s3) (packet_copy_data p)) as [e'|] eqn:Hth.
      + rewrite Hres. repeat split; try easy.
        * exists [packet_copy_data p]. now rewrite Hc, Htr, <- app_assoc.
        * intros e [= <-]. exists (trace s3), (packet_copy_data p).
          now rewrite Hc.
        * intros H. now rewrite (H _ (packet_copy_data p)) in Hth.
      + destruct Hres as [-> Hp]. repeat split; try easy.
        * exists [packet_copy_data p]. now rewrite Hc, Htr, <- app_assoc.
        * rewrite Hc. apply last_snoc.
        * now rewrite Hp, Hpk.
    - repeat split; try easy. exists []. now rewrite app_nil_r. }
  destruct r as [[]|e|]; [| |easy].
  - apply (Hcopy s2 []); [now rewrite app_nil_r | reflexivity].
  - destruct (catch_clauses_outcome p e s2) as (Hcl & Htr & Hres).
    rewrite Hli in Hcl, Htr, Hres.
    pose proof (keeps_catch_clauses env packets passive_packets p e s2) as Hpk.
    destruct (catch_clauses env p e s2) as [r3 s3]. cbn [fst snd] in *. subst r3.
    destruct (throws env (trace s2) _) as [e'|] eqn:Hth.
    + cbn [fst snd]. repeat split; try easy.
      * exists []. now rewrite app_nil_r.
      * intros e0 [= <-]. eexists _, _. split; [exact Htr|]. now split.
      * intros H. now rewrite (H _ _ Hcl) in Hth.
    + apply (Hcopy s3 _ Htr Hpk).
Qed.

Lemma dispatch_frames_returns fs s :
  returns_normally env is_cleanup -> (dispatch_frames env fs s).1 = Ok tt.
Proof.
  intros H. revert s. induction fs as [|f fs IH]; intros s; [reflexivity|].
  cbn [dispatch_frames]. rewrite bind_unfold.
  destruct (handle_packet_outcome f s) as (_ & _ & _ & _ & Hret).
  specialize (Hret H). destruct (handle_packet env f s) as [r s1].
  cbn [fst snd] in Hret. subst r. apply IH.
Qed.

(** C3. No exception raised in the [try] block, by parsing or by routing,
    leaves [handle_packet].  Each of them has been converted: an unknown
    layer into a release of the packet (or into an error delivery when the
    build asks for it), any other exception into a call of the listener's
    [accept_error] with the text of the exception.  An exception that does
    leave the callback was thrown by a handler or by the final copy, after
    the [try] block; when these return, the callback returns and the capture
    goes on with the frames that follow. *)
Theorem handle_packet_contains_exceptions f fs s :
  let p := (claim s).1 in
  let out := handle_packet env f s in
  let calls := calls_during (handle_packet env f) s in
  match (try_block env p f (claim s).2).2.1 with
  | Raise (unknown_layer_t m) =>
      if UNKNOWN_LAYER_AS_ERROR env
      then accept_error (d_listener s) p m ∈ calls
      else packet_release p ∈ calls
  | Raise e => accept_error (d_listener s) p (what e) ∈ calls
  | Ok _ => True
  | Abort => False
  end /\
  out.1 <> Abort /\
  (forall e, out.1 = Raise e -> thrown_by_cleanup env (trace out.2) e) /\
  (returns_normally env is_cleanup ->
   out.1 = Ok tt /\ (dispatch_frames env (f :: fs) s).1 = Ok tt).
Proof.
  cbv zeta.
  destruct (handle_packet_outcome f s) as (Hab & [rest Htr] & Hesc & _ & Hret).
  pose proof (try_block_facts (claim s).1 f (claim s).2) as HF. cbv zeta in HF.
  destruct HF as (_ & Hab' & [d Hd] & _). rewrite claim_trace in Hd.
  repeat split; try assumption.
  - rewrite Hd, <- !app_assoc in Htr. apply calls_during_spec in Htr. rewrite Htr.
    destruct ((try_block env (claim s).1 f (claim s).2).2.1) as [[]|[m|m|m]|];
      [easy| | | |easy]; cbn [handler_call];
      try destruct (UNKNOWN_LAYER_AS_ERROR env);
      rewrite !elem_of_app, elem_of_cons; right; left; now left.
  - now apply Hret.
  - now apply dispatch_frames_returns.
Qed.

(** A callback that returns has left the packet it claimed with bytes of
    its own, and no other packet object has been touched. *)
Lemma handle_packet_returned f s :
  no_borrowed s ->
  (handle_packet env f s).1 = Ok tt ->
  let p := (claim s).1 in
  let s' := (handle_packet env f s).2 in
  (if (try_block env p f (claim s).2).1
   then last (trace s') = Some (packet_copy_data p)
   else True) /\
  (exists pk, packets s' !! p = Some pk /\ p_data pk = Owned) /\
  no_borrowed s'.
Proof.
  intros Hinv Hok. cbv zeta.
  destruct (handle_packet_outcome f s) as (_ & _ & _ & Hpost & _).
  destruct (Hpost Hok) as [Hlast Hpk].
  pose proof (try_block_facts (claim s).1 f (claim s).2) as HF. cbv zeta in HF.
  destruct HF as (Hmc & _ & _ & Hpk2 & _).
  rewrite Hpk2, claim_packets, insert_insert_eq in Hpk.
  destruct (claim_reader s) as (Hlt & _). rewrite Hlt in Hmc, Hpk.
  set (p := (claim s).1) in *. set (s' := (handle_packet env f s).2) in *.
  assert (Hown : exists pk, packets s' !! p = Some pk /\ p_data pk = Owned).
  { rewrite Hpk. destruct (try_block env p f (claim s).2).1.
    - rewrite lookup_alter_eq, lookup_insert_eq. now eexists.
    - rewrite lookup_insert_eq. eexists. split; [reflexivity|].
      unfold parsed_packet. cbn. now rewrite <- Hmc. }
  split; [exact Hlast|]. split; [exact Hown|].
  intros q pk Hq. destruct (decide (q = p)) as [->|Hne].
  - destruct Hown as (pk' & Hpk' & Ho). congruence.
  - apply (Hinv q). rewrite Hpk in Hq.
    destruct (try_block env p f (claim s).2).1.
    + rewrite lookup_alter_ne, lookup_insert_ne in Hq by congruence. exact Hq.
    + rewrite lookup_insert_ne in Hq by congruence. exact Hq.
Qed.

(** Across a whole [pcap_dispatch]: between any two callbacks, and when the
    loop ends, no packet object points into libpcap's buffer. *)
Lemma dispatch_frames_no_borrowed fs s :
  no_borrowed s ->
  (dispatch_frames env fs s).1 = Ok tt ->
  no_borrowed (dispatch_frames env fs s).2.
Proof.
  revert s. induction fs as [|f fs IH]; intros s Hinv; [easy|].
  cbn [dispatch_frames]. rewrite bind_unfold.
  pose proof (handle_packet_returned f s Hinv) as Hf.
  destruct (handle_packet env f s) as [[[]|e|] s1]; cbn [fst snd] in *; try easy.
  apply IH. now apply Hf.
Qed.

(** C1. Whatever branch the routing took, a callback that returns leaves the
    packet it claimed with bytes of its own: when [must_copy] is still set
    after the [try] block and the handlers, the last call of the callback is
    [copy_data] on that packet.  Hence no packet object points into
    libpcap's buffer between two callbacks.  The callback does return
    whenever the handlers and [copy_data] do. *)
Theorem handle_packet_leaves_no_borrowed_data f s :
  no_borrowed s ->
  let p := (claim s).1 in
  let out := handle_packet env f s in
  (returns_normally env is_cleanup -> out.1 = Ok tt) /\
  (out.1 = Ok tt ->
   (if (try_block env p f (claim s).2).1
    then last (trace out.2) = Some (packet_copy_data p)
    else True) /\
   (exists pk, packets out.2 !! p = Some pk /\ p_data pk = Owned) /\
   no_borrowed out.2).
Proof.
  intros Hinv. cbv zeta. split.
  - intros Hcalm.
    destruct (handle_packet_outcome f s) as (_ & _ & _ & _ & Hret).
    now apply Hret.
  - intros Hok. now apply handle_packet_returned.
Qed.

(** C10. In the default build ([UNKNOWN_LAYER_AS_ERROR] not defined), when
    parsing throws [unknown_layer_t] and leaves [must_copy] set, the
    callback releases the packet to the pool and then still calls
    [copy_data] on the packet it has just released. *)
Theorem unknown_layer_releases_then_copies f s msg :
  let p := (claim s).1 in
  UNKNOWN_LAYER_AS_ERROR env = false ->
  throws env (trace s) (packet_init p (d_linktype s) f) = Some (unknown_layer_t msg) ->
  parsed_must_copy (parse env (d_linktype s) f) = true ->
  returns_normally env is_release ->
  calls_during (handle_packet env f) s =
    [packet_init p (d_linktype s) f; packet_release p; packet_copy_data p] /\
  p ∈ d_free (handle_packet env f s).2.
Proof.
  intros p Hcfg Hthrow Hmc Hrel.
  assert (Hfin :
    trace (handle_packet env f s).2 =
      trace s ++ [packet_init p (d_linktype s) f; packet_release p; packet_copy_data p] /\
    p ∈ d_free (handle_packet env f s).2).
  { rewrite handle_packet_stages. cbv zeta. fold p.
    unfold try_block, packet_t_init, ext.
    destruct (claim_reader s) as (-> & Hli & _).
    rewrite Hmc. cbn [trace set_packets]. rewrite claim_trace, Hthrow. cbn [fst snd].
    unfold catch_clauses. rewrite Hcfg. unfold packet_t_release.
    rewrite bind_unfold, (ext_returns env is_release) by easy.
    unfold modify, packet_t_copy_data. cbn [fst snd]. rewrite bind_unfold.
    unfold ext. destruct (throws env _ (packet_copy_data p)); cbn;
      (split; [now rewrite <- !app_assoc | apply elem_of_cons; now left]). }
  destruct Hfin as [Htr Hfree]. split; [now apply calls_during_spec | exact Hfree].
Qed.

Lemma route_tcp p s :
  non_null (d_tcp_reassembler s) = true ->
  tcp_on_top (p_layers (deref p s)) = true ->
  (2 <= length (p_layers (deref p s)))%nat ->
  route env p s = tcp_reassembler_process env p s.
Proof.
  intros Ht Htop Hlen. unfold route, layer, tcp_on_top in *. cbn.
  rewrite <- length_rev in Hlen.
  destruct (rev (p_layers (deref p s))) as [|a [|b r]]; cbn in *; try lia.
  rewrite Ht. destruct a; try discriminate; [reflexivity|].
  destruct b; try discriminate. reflexivity.
Qed.

End HandlePacketFacts.

(** ** The capture session *)

Lemma remove_first_head h hs : remove_first h (h :: hs) = hs.
Proof. cbn. now rewrite Nat.eqb_refl. Qed.

Section SessionFacts.
Context (env : environment).

Lemma keeps_session_copy_data p : keeps session (packet_t_copy_data env p).
Proof. unfold packet_t_copy_data. frame; reflexivity. Qed.

Lemma handle_packet_session f : keeps session (handle_packet env f).
Proof.
  intros s. rewrite handle_packet_stages. cbv zeta.
  pose proof (try_block_facts env (claim s).1 f (claim s).2) as HF. cbv zeta in HF.
  destruct HF as (_ & _ & _ & _ & Hse & _). rewrite claim_session in Hse.
  set (p := (claim s).1) in *.
  destruct (try_block env p f (claim s).2) as [mc [[[]|e|] s2]];
    cbn [fst snd] in *; try assumption.
  - destruct mc; [|assumption]. now rewrite keeps_session_copy_data.
  - pose proof (keeps_catch_clauses env session passive_session p e s2) as Hc.
    destruct (catch_clauses env p e s2) as [[[]|e'|] s3]; cbn [fst snd] in *;
      try congruence.
    destruct mc; [|cbn [fst snd]; congruence].
    rewrite keeps_session_copy_data. congruence.
Qed.

Lemma handle_packet_never_aborts f : never_aborts (handle_packet env f).
Proof.
  intros s. rewrite handle_packet_stages. cbv zeta.
  pose proof (try_block_facts env (claim s).1 f (claim s).2) as HF. cbv zeta in HF.
  destruct HF as (_ & Hab & _).
  set (p := (claim s).1) in *.
  destruct (try_block env p f (claim s).2) as [mc [[[]|e|] s2]];
    cbn [fst snd] in *; try easy.
  - destruct mc; [apply never_aborts_copy_data | easy].
  - pose proof (never_aborts_catch_clauses env p e s2) as Hc.
    destruct (catch_clauses env p e s2) as [[[]|e'|] s3]; cbn [fst snd] in *;
      try easy.
    destruct mc; [apply never_aborts_copy_data | easy].
Qed.

Lemma dispatch_frames_session fs : keeps session (dispatch_frames env fs).
Proof.
  induction fs as [|f fs IH]; cbn [dispatch_frames]; [now intros s|].
  apply keeps_bind; [apply handle_packet_session | intros _; exact IH].
Qed.

Lemma dispatch_frames_never_aborts fs : never_aborts (dispatch_frames env fs).
Proof.
  induction fs as [|f fs IH]; cbn [dispatch_frames]; [now intros s|].
  apply never_aborts_bind; [apply handle_packet_never_aborts | intros _; exact IH].
Qed.

Lemma set_bpf_session bpf : keeps session (set_bpf env bpf).
Proof.
  intros s. unfold set_bpf.
  destruct (String.eqb bpf ""); [reflexivity|].
  destruct (d_pcap s) as [h|]; [|reflexivity].
  destruct (compile_rc env h bpf <? 0), (setfilter_rc env h bpf <? 0);
    match goal with |- session (?m s).2 = _ => enough (keeps session m) by easy end;
    frame; reflexivity.
Qed.

Lemma set_bpf_open bpf s : d_pcap s <> None -> (set_bpf env bpf s).1 <> Abort.
Proof.
  intros Hd. unfold set_bpf.
  destruct (String.eqb bpf ""); [easy|].
  destruct (d_pcap s) as [h|]; [|easy].
  destruct (compile_rc env h bpf <? 0), (setfilter_rc env h bpf <? 0);
    match goal with |- (?m s).1 <> _ => enough (never_aborts m) by easy end;
    total.
Qed.

Lemma start_capture_session name bpf h : keeps session (start_capture env name bpf h).
Proof.
  unfold start_capture. apply keeps_bind; [apply set_bpf_session|]. intros _.
  apply keeps_bind; [frame|]. intros _.
  apply keeps_bind; [frame; reflexivity|]. intros _.
  intros s. now apply (keeps_ext env session).
Qed.

Lemma start_capture_open name bpf h s :
  d_pcap s <> None -> (start_capture env name bpf h s).1 <> Abort.
Proof.
  intros Hd. unfold start_capture. rewrite bind_unfold.
  pose proof (set_bpf_open bpf s Hd) as Hb.
  destruct (set_bpf env bpf s) as [[[]|e|] s1]; cbn [fst snd] in *; try easy.
  apply never_aborts_bind; [total|]. intros _.
  apply never_aborts_bind; [total|]. intros _.
  intros s2. apply never_aborts_ext.
Qed.

Lemma read_packets_session : keeps session (read_packets env).
Proof.
  intros s. unfold read_packets. destruct (d_pcap s) as [h|]; [|reflexivity].
  match goal with |- session (?m s).2 = _ => enough (keeps session m) by easy end.
  apply keeps_bind; [frame|]. intros _.
  apply keeps_bind; [apply dispatch_frames_session|]. intros _.
  destruct (_ =? _); frame.
Qed.

Lemma read_packets_open s : d_pcap s <> None -> (read_packets env s).1 <> Abort.
Proof.
  intros Hd. unfold read_packets. destruct (d_pcap s) as [h|]; [|easy].
  match goal with |- (?m s).1 <> _ => enough (never_aborts m) by easy end.
  apply never_aborts_bind; [total|]. intros _.
  apply never_aborts_bind; [apply dispatch_frames_never_aborts|]. intros _.
  destruct (_ =? _); total.
Qed.

(** [open_file] on an idle reader: either the file opens and its handle is
    the reader's and libpcap's newest, or nothing is open and the call
    throws. *)
Lemma open_file_idle fname bpf s :
  d_pcap s = None ->
  let out := open_file env fname bpf s in
  out.1 <> Abort /\
  match (open_offline env fname).1 with
  | Some h => session out.2 = (Some h, h :: handles s)
  | None => session out.2 = (None, handles s) /\ out.1 <> Ok tt
  end.
Proof.
  intros Hd. cbv zeta. unfold open_file. rewrite Hd, bind_unfold. cbn [log modify].
  destruct (open_offline env fname) as [[h|] errbuf]; cbn [fst snd].
  - rewrite bind_unfold. cbn [modify].
    match goal with |- context [start_capture env fname bpf h ?x] => set (s1 := x) end.
    split.
    + apply start_capture_open. now subst s1.
    + now rewrite start_capture_session.
  - cbn. repeat split; easy.
Qed.

Lemma close_guard_dtor_open s h hs :
  session s = (Some h, h :: hs) ->
  session (close_guard_dtor s) = (None, hs) /\
  trace (close_guard_dtor s) = trace s ++ [pcap_close h].
Proof.
  unfold session, close_guard_dtor. intros [= Hd Hh]. rewrite Hd. cbn.
  now rewrite Hh, remove_first_head.
Qed.

Lemma close_guard_dtor_idle s : d_pcap s = None -> close_guard_dtor s = s.
Proof. unfold close_guard_dtor. now intros ->. Qed.

(** C4. With a handle already open, [read_file] throws its "already busy"
    exception before it calls libpcap, and the reader, the open session and
    the trace are what they were. *)
Theorem read_file_already_open fname bpf s h :
  d_pcap s = Some h ->
  read_file env fname bpf s = (Raise AlreadyOpen, s).
Proof. intros H. unfold read_file. now rewrite H. Qed.

(** The guarded scope of [read_file], on an idle reader: no assertion fails
    in it, and when it is left the reader holds the handle of the file and
    libpcap has it as its newest, or, when the file did not open, nothing
    has changed. *)
Lemma read_file_body_session fname bpf s :
  d_pcap s = None ->
  let b := (open_file env fname bpf >> read_packets env) s in
  b.1 <> Abort /\
  session b.2 = match (open_offline env fname).1 with
                | Some h => (Some h, h :: handles s)
                | None => (None, handles s)
                end.
Proof.
  intros Hd. cbv zeta. rewrite bind_unfold.
  destruct (open_file_idle fname bpf s Hd) as [Hab Hop].
  destruct (open_file env fname bpf s) as [[[]|e|] s1]; cbn [fst snd] in *;
    [| |easy].
  - destruct (open_offline env fname).1 as [h|]; [|now destruct Hop].
    rewrite read_packets_session. split; [|exact Hop].
    apply read_packets_open. unfold session in Hop. now injection Hop as -> _.
  - split; [easy|]. now destruct (open_offline env fname).1; [|destruct Hop].
Qed.

(** C7. A [read_file] that got past the "already busy" test leaves no handle
    behind, however it ends (by return, or with the exception of a failed
    open, a failed filter, a failed read loop or a callback): the reader's
    handle is null, libpcap holds open exactly what it held before, and,
    when the file had opened, closing it is the last thing that happened. *)
Theorem read_file_closes_on_every_exit fname bpf s :
  d_pcap s = None ->
  let out := read_file env fname bpf s in
  out.1 <> Abort /\
  d_pcap out.2 = None /\
  handles out.2 = handles s /\
  match (open_offline env fname).1 with
  | Some h => last (trace out.2) = Some (pcap_close h)
  | None => True
  end.
Proof.
  intros Hd. cbv zeta. unfold read_file, with_close_guard. rewrite Hd.
  destruct (read_file_body_session fname bpf s Hd) as [Hnab Hses].
  destruct ((open_file env fname bpf >> read_packets env) s) as [r2 s2].
  cbn [fst snd] in *.
  destruct (open_offline env fname).1 as [h|].
  - destruct (close_guard_dtor_open s2 h (handles s) Hses) as [Hs Ht].
    unfold session in Hs. injection Hs as Hs1 Hs2.
    destruct r2 as [[]|e|]; cbn [fst snd]; try easy;
      (repeat split; try easy; rewrite Ht; apply last_snoc).
  - unfold session in Hses. injection Hses as Hs1 Hs2.
    rewrite (close_guard_dtor_idle s2 Hs1).
    destruct r2 as [[]|e|]; cbn [fst snd]; easy.
Qed.

Lemma appends_handle_packet f : appends (handle_packet env f).
Proof.
  intros s. rewrite handle_packet_stages. cbv zeta.
  pose proof (try_block_facts env (claim s).1 f (claim s).2) as HF. cbv zeta in HF.
  destruct HF as (_ & _ & [d Hd] & _). rewrite claim_trace in Hd.
  set (p := (claim s).1) in *.
  destruct (try_block env p f (claim s).2) as [mc [[[]|e|] s2]];
    cbn [fst snd] in *; eauto.
  - destruct mc; cbn [fst snd]; eauto.
    destruct (appends_copy_data env p s2) as [d' Hd'].
    eexists. now rewrite Hd', Hd, <- app_assoc.
  - destruct (appends_catch_clauses env p e s2) as [d1 Hd1].
    destruct (catch_clauses env p e s2) as [[[]|e'|] s3]; cbn [fst snd] in *;
      try (eexists; now rewrite Hd1, Hd, <- app_assoc).
    destruct mc; cbn [fst snd];
      try (eexists; now rewrite Hd1, Hd, <- app_assoc).
    destruct (appends_copy_data env p s3) as [d' Hd'].
    eexists. now rewrite Hd', Hd1, Hd, <- !app_assoc.
Qed.

Lemma appends_dispatch_frames fs : appends (dispatch_frames env fs).
Proof.
  induction fs as [|f fs IH]; cbn [dispatch_frames]; [apply appends_ret|].
  apply appends_bind; [apply appends_handle_packet | intros _; exact IH].
Qed.

Lemma appends_set_bpf bpf : appends (set_bpf env bpf).
Proof.
  intros s. unfold set_bpf.
  destruct (String.eqb bpf ""); [apply (appends_ret tt)|].
  destruct (d_pcap s) as [h|]; [|apply (appends_ret tt)].
  match goal with |- context [(?m s).2] => enough (appends m) by easy end.
  apply appends_bind; [apply appends_log|]. intros _.
  destruct (_ <? _); [apply appends_raise|].
  apply appends_bind; [now apply appends_modify|]. intros _.
  apply appends_bind; [apply appends_log|]. intros _.
  destruct (_ <? _); [apply appends_raise | apply appends_ret].
Qed.

Lemma appends_start_capture name bpf h : appends (start_capture env name bpf h).
Proof.
  unfold start_capture. apply appends_bind; [apply appends_set_bpf|]. intros _.
  apply appends_bind; [apply appends_log|]. intros _.
  apply appends_bind; [now apply appends_modify|]. intros _.
  intros s. apply appends_ext.
Qed.

(** [open_live_capture] starts by opening the device, whatever the reader
    holds at that moment: there is no "already busy" test in it. *)
Lemma open_live_capture_opens_at_once device promiscuous bpf s :
  exists d, trace (open_live_capture env device promiscuous bpf s).2 =
            trace s ++ pcap_open_live device 65536 promiscuous 1000 :: d.
Proof.
  unfold open_live_capture. rewrite bind_unfold. cbn [log modify].
  destruct (open_live env device promiscuous) as [[h|] errbuf].
  - rewrite bind_unfold. cbn [modify].
    match goal with |- context [start_capture env device bpf h ?x] =>
      destruct (appends_start_capture device bpf h x) as [d Hd] end.
    exists d. rewrite Hd. cbn. now rewrite <- app_assoc.
  - now exists [].
Qed.

Lemma appends_read_packets : appends (read_packets env).
Proof.
  intros s. unfold read_packets.
  destruct (d_pcap s) as [h|]; [|apply (appends_ret tt)].
  match goal with |- context [(?m s).2] => enough (appends m) by easy end.
  apply appends_bind; [apply appends_log|]. intros _.
  apply appends_bind; [apply appends_dispatch_frames|]. intros _.
  destruct (_ =? _); [apply appends_raise | apply appends_ret].
Qed.

(** The first thing an idle reader does in [read_file] is to open the
    file. *)
Lemma read_file_idle_opens fname bpf s :
  d_pcap s = None ->
  exists d, trace (read_file env fname bpf s).2 =
            trace s ++ pcap_open_offline fname :: d.
Proof.
  intros Hd. unfold read_file, with_close_guard. rewrite Hd.
  assert (Hbody : exists d,
    trace ((open_file env fname bpf >> read_packets env) s).2 =
    trace s ++ pcap_open_offline fname :: d).
  { rewrite bind_unfold.
    assert (Hopen : exists d, trace (open_file env fname bpf s).2 =
                              trace s ++ pcap_open_offline fname :: d).
    { unfold open_file. rewrite Hd, bind_unfold. cbn [log modify].
      match goal with |- context [set_trace ?t s] => set (s1 := set_trace t s) end.
      destruct (open_offline env fname) as [[h|] errbuf].
      - rewrite bind_unfold. cbn [modify].
        match goal with |- context [start_capture env fname bpf h ?x] =>
          destruct (appends_start_capture fname bpf h x) as [d Hdd] end.
        exists d. rewrite Hdd. subst s1. cbn. now rewrite <- app_assoc.
      - now exists []. }
    destruct Hopen as [d Hdd].
    destruct (open_file env fname bpf s) as [[[]|e|] s1]; cbn [fst snd] in *; eauto.
    destruct (appends_read_packets s1) as [d' Hd'].
    exists (d ++ d'). now rewrite Hd', Hdd, <- app_assoc. }
  destruct Hbody as [d Hdd].
  destruct ((open_file env fname bpf >> read_packets env) s) as [[[]|e|] s2];
    cbn [fst snd] in *; eauto;
    unfold close_guard_dtor; destruct (d_pcap s2); cbn; eauto;
    eexists; now rewrite Hdd, <- app_assoc.
Qed.

(** C6 (amended). Two calls of [read_file] in a row on an idle reader do
    not collide: the first call has closed its handle by the time it is left,
    by return or by exception, so the second call passes the "already busy"
    test and starts by opening its file. *)
Theorem read_file_twice_in_a_row fname1 bpf1 fname2 bpf2 s :
  d_pcap s = None ->
  let s1 := (read_file env fname1 bpf1 s).2 in
  d_pcap s1 = None /\
  handles s1 = handles s /\
  exists d, calls_during (read_file env fname2 bpf2) s1 = pcap_open_offline fname2 :: d.
Proof.
  intros Hd. cbv zeta.
  assert (Hidle : session (read_file env fname1 bpf1 s).2 = (None, handles s)).
  { unfold read_file, with_close_guard. rewrite Hd.
    destruct (read_file_body_session fname1 bpf1 s Hd) as [Hnab Hses].
    destruct ((open_file env fname1 bpf1 >> read_packets env) s) as [r2 s2].
    cbn [fst snd] in *.
    assert (Hdtor : session (close_guard_dtor s2) = (None, handles s)).
    { destruct (open_offline env fname1).1 as [h|].
      - apply (close_guard_dtor_open s2 h (handles s) Hses).
      - rewrite close_guard_dtor_idle; [exact Hses|].
        unfold session in Hses. now injection Hses as -> _. }
    now destruct r2 as [[]|e|]. }
  unfold session in Hidle. injection Hidle as Hn Hh.
  repeat split; try assumption.
  destruct (read_file_idle_opens fname2 bpf2 _ Hn) as [d Hdd].
  exists d. now apply calls_during_spec.
Qed.

End SessionFacts.

(** ** The theorems at work *)

Lemma idle_reader_no_borrowed : no_borrowed idle_reader.
Proof.
  intros q pk H.
  change (packets idle_reader) with (∅ : gmap packet_ptr packet_t) in H.
  now rewrite lookup_empty in H.
Qed.

(** C1, on the first frame of a TCP capture: the packet goes to the TCP
    reassembler and is copied before the callback returns. *)
Lemma handle_packet_leaves_no_borrowed_data_witness :
  (handle_packet tcp_env demo_frame idle_reader).1 = Ok tt /\
  last (trace (handle_packet tcp_env demo_frame idle_reader).2)
    = Some (packet_copy_data 0%nat) /\
  no_borrowed (handle_packet tcp_env demo_frame idle_reader).2.
Proof.
  destruct (handle_packet_leaves_no_borrowed_data tcp_env demo_frame idle_reader
              idle_reader_no_borrowed) as [Hret Hpost].
  assert (Hok : (handle_packet tcp_env demo_frame idle_reader).1 = Ok tt)
    by reflexivity.
  destruct (Hpost Hok) as (Hlast & _ & Hinv).
  split; [exact Hok|]. split; [exact Hlast | exact Hinv].
Defined.

(** C2 as stated fails: a frame that parses to a lone TCP layer has TCP on
    top, and with TCP reassembly enabled the callback still hands it to the
    listener's [accept] and never to the TCP reassembler. *)
Lemma lone_tcp_layer_is_accepted_directly :
  tcp_on_top (parsed_layers (parse lone_tcp_env (d_linktype idle_reader) demo_frame)) = true /\
  non_null (d_tcp_reassembler idle_reader) = true /\
  List.filter is_tcp_process (calls_during (handle_packet lone_tcp_env demo_frame) idle_reader) = [] /\
  List.filter is_delivery (calls_during (handle_packet lone_tcp_env demo_frame) idle_reader)
    = [accept 1%nat 0%nat].
Proof. vm_compute. repeat split. Qed.

(** C3, on a frame with a truncated header: the callback returns, the
    listener has been told of the error, and the next frame is handled. *)
Lemma handle_packet_contains_exceptions_witness :
  accept_error 1%nat 0%nat "truncated header"
    ∈ calls_during (handle_packet malformed_env demo_frame) idle_reader /\
  (handle_packet malformed_env demo_frame idle_reader).1 = Ok tt /\
  (dispatch_frames malformed_env [demo_frame; demo_frame] idle_reader).1 = Ok tt.
Proof.
  destruct (handle_packet_contains_exceptions malformed_env demo_frame [demo_frame]
              idle_reader) as (Hconv & _ & _ & Hret).
  split; [exact Hconv|]. apply Hret.
  intros tr c Hc. destruct c; try discriminate Hc; reflexivity.
Defined.

(** C4, on a reader with a live capture open. *)
Lemma read_file_already_open_witness :
  read_file tcp_env "a.pcap" "" busy_reader = (Raise AlreadyOpen, busy_reader).
Proof. apply (read_file_already_open tcp_env "a.pcap" "" busy_reader 3%nat). reflexivity. Defined.

(** C5 (code bug). [open_live_capture] has no "already busy" test: on a
    reader whose handle 3 is open it returns normally, the reader now holds
    handle 8, and handle 3 is still open in libpcap with nobody left to
    close it. *)
Theorem open_live_capture_ignores_open_session :
  let out := open_live_capture tcp_env "eth0" false "" busy_reader in
  d_pcap busy_reader = Some 3%nat /\
  out.1 = Ok tt /\
  d_pcap out.2 = Some 8%nat /\
  handles out.2 = [8%nat; 3%nat] /\
  trace out.2 = [pcap_open_live "eth0" 65536 false 1000; pcap_datalink 8%nat;
                 begin_capture 1%nat "eth0" 1 65535].
Proof. vm_compute. repeat split. Qed.

(** C6 as stated fails: the second of two calls of [read_file] in a row
    returns normally, it does not throw "already busy", and no session of
    the first call is left. *)
Lemma second_read_file_is_not_rejected :
  let first := read_file tcp_env "a.pcap" "" idle_reader in
  let second := read_file tcp_env "b.pcap" "" first.2 in
  first.1 = Ok tt /\ d_pcap first.2 = None /\
  second.1 = Ok tt /\ second.1 <> Raise AlreadyOpen.
Proof. vm_compute. repeat split. discriminate. Qed.

(** C6 (amended), on two captures read one after the other. *)
Lemma read_file_twice_in_a_row_witness :
  d_pcap (read_file tcp_env "a.pcap" "" idle_reader).2 = None /\
  handles (read_file tcp_env "a.pcap" "" idle_reader).2 = handles idle_reader /\
  exists d, calls_during (read_file tcp_env "b.pcap" "tcp")
              (read_file tcp_env "a.pcap" "" idle_reader).2
            = pcap_open_offline "b.pcap" :: d.
Proof.
  apply (read_file_twice_in_a_row tcp_env "a.pcap" "" "b.pcap" "tcp" idle_reader).
  reflexivity.
Defined.

(** C7, on a capture of one frame. *)
Lemma read_file_closes_on_every_exit_witness :
  (read_file tcp_env "a.pcap" "tcp" idle_reader).1 <> Abort /\
  d_pcap (read_file tcp_env "a.pcap" "tcp" idle_reader).2 = None /\
  handles (read_file tcp_env "a.pcap" "tcp" idle_reader).2 = [] /\
  last (trace (read_file tcp_env "a.pcap" "tcp" idle_reader).2) = Some (pcap_close 7%nat).
Proof.
  apply (read_file_closes_on_every_exit tcp_env "a.pcap" "tcp" idle_reader).
  reflexivity.
Defined.

(** The exit paths of [read_file] one by one, each on an idle reader: a file
    that does not open, a filter that does not compile, a read loop that
    fails, and an exception that leaves the callback.  Each time the
    exception reaches the caller, and the reader and libpcap are left without
    an open handle. *)
Lemma read_file_exit_paths :
  let closed (out : result unit * state) :=
    d_pcap out.2 = None /\ handles out.2 = [] in
  let open_failure := read_file tcp_env "missing.pcap" "" idle_reader in
  let filter_failure := read_file (with_failures (-1) 0 quiet) "a.pcap" "tcp" idle_reader in
  let loop_failure := read_file (with_failures 0 (-1) quiet) "a.pcap" "" idle_reader in
  let callback_failure := read_file (with_failures 0 0 listener_fails) "a.pcap" "" idle_reader in
  (open_failure.1 =
     Raise (format_exception "Could not open pcap 'missing.pcap', No such file") /\
   closed open_failure) /\
  (filter_failure.1 =
     Raise (format_exception "Could not compile bpf filter 'tcp', error") /\
   closed filter_failure /\
   last (trace filter_failure.2) = Some (pcap_close 7%nat)) /\
  (loop_failure.1 = Raise (format_exception "Pcap reader failed, error") /\
   closed loop_failure /\
   last (trace loop_failure.2) = Some (pcap_close 7%nat)) /\
  (callback_failure.1 = Raise (std_exception "listener failed") /\
   closed callback_failure /\
   last (trace callback_failure.2) = Some (pcap_close 7%nat)).
Proof. vm_compute. repeat split. Qed.

(** C10, on a frame with an unknown layer. *)
Lemma unknown_layer_releases_then_copies_witness :
  calls_during (handle_packet unknown_env demo_frame) idle_reader =
    [packet_init 0%nat 0 demo_frame; packet_release 0%nat; packet_copy_data 0%nat] /\
  0%nat ∈ d_free (handle_packet unknown_env demo_frame idle_reader).2.
Proof.
  apply (unknown_layer_releases_then_copies unknown_env demo_frame idle_reader "unknown layer").
  - reflexivity.
  - reflexivity.
  - reflexivity.
  - intros tr c Hc. destruct c; try discriminate Hc; reflexivity.
Defined.

(** * More of the reader

    The rest of [pcap_reader.cpp]: [open_file] and [close_file] as a pair,
    the failures at open time, [read_packets], the live capture, the
    destructor, the routing of UDP and of everything else, and what the
    callback does with the packet of each frame. *)

(** ** Opening and closing *)

Section MoreSession.
Context (env : environment).

Lemma open_file_returned fname bpf s :
  (open_file env fname bpf s).1 = Ok tt ->
  exists h, d_pcap s = None /\ (open_offline env fname).1 = Some h /\
            session (open_file env fname bpf s).2 = (Some h, h :: handles s).
Proof.
  intros Hok. destruct (d_pcap s) eqn:Hd.
  - unfold open_file in Hok. rewrite Hd in Hok. discriminate.
  - destruct (open_file_idle env fname bpf s Hd) as [_ Hop].
    destruct (open_offline env fname).1 as [h|]; [eauto | now destruct Hop].
Qed.

Lemma close_file_open s h :
  d_pcap s = Some h ->
  close_file s = (Ok tt, set_d_pcap None (lib_close h s)).
Proof. intros H. unfold close_file. now rewrite H. Qed.

(** X1. [open_file] and [close_file] are a pair: after an [open_file] that
    returned, [close_file] returns, its one call is [pcap_close] on the
    handle of the file, the reader has no handle and libpcap holds open what
    it held before the file was opened; a second [close_file] throws "cannot
    close" and changes nothing. *)
Theorem open_file_close_file fname bpf s :
  (open_file env fname bpf s).1 = Ok tt ->
  let opened := (open_file env fname bpf s).2 in
  let closed := close_file opened in
  closed.1 = Ok tt /\
  d_pcap closed.2 = None /\
  handles closed.2 = handles s /\
  (exists h, d_pcap opened = Some h /\
             calls_during close_file opened = [pcap_close h]) /\
  close_file closed.2 = (Raise NotOpen, closed.2).
Proof.
  intros Hok. cbv zeta.
  destruct (open_file_returned fname bpf s Hok) as (h & _ & _ & Hs).
  unfold session in Hs. injection Hs as Hd Hh.
  rewrite (close_file_open _ h Hd). cbn [fst snd]. repeat split.
  - cbn. now rewrite Hh, remove_first_head.
  - exists h. split; [exact Hd|]. apply calls_during_spec.
    now rewrite (close_file_open _ h Hd).
Qed.

(** X2. While a file opened by [open_file] is open, the reader refuses to
    open another: [open_file] and [read_file] both throw their "already
    busy" exception, before any call to libpcap, and leave the reader and
    the open session as they are. *)
Theorem open_file_excludes_further_opens fname bpf fname' bpf' s :
  (open_file env fname bpf s).1 = Ok tt ->
  let opened := (open_file env fname bpf s).2 in
  open_file env fname' bpf' opened = (Raise AlreadyOpenFile, opened) /\
  read_file env fname' bpf' opened = (Raise AlreadyOpen, opened).
Proof.
  intros Hok. cbv zeta.
  destruct (open_file_returned fname bpf s Hok) as (h & _ & _ & Hs).
  unfold session in Hs. injection Hs as Hd Hh.
  unfold open_file at 1, read_file. now rewrite Hd.
Qed.

(** The text of the exception of a filter that fails. *)
Lemma set_bpf_failure bpf s h :
  d_pcap s = Some h -> bpf <> "" ->
  (compile_rc env h bpf < 0 \/ setfilter_rc env h bpf < 0) ->
  exists s',
    set_bpf env bpf s =
      (Raise (format_exception
                ((if compile_rc env h bpf <? 0
                  then "Could not compile bpf filter '"
                  else "Could not activate bpf filter '")
                 +:+ bpf +:+ "', " +:+ pcap_geterr env h)), s') /\
    session s' = session s /\
    trace s' = trace s ++ pcap_compile h bpf ::
                 (if compile_rc env h bpf <? 0 then [] else [pcap_setfilter h bpf]).
Proof.
  intros Hd Hne Hrc. unfold set_bpf.
  apply String.eqb_neq in Hne. rewrite Hne, Hd, bind_unfold. cbn [log modify].
  destruct (compile_rc env h bpf <? 0) eqn:Hc.
  - eexists. repeat split.
  - rewrite !bind_unfold. cbn [log modify].
    destruct (setfilter_rc env h bpf <? 0) eqn:Hs; [|lia].
    eexists. split; [reflexivity|]. split; [reflexivity|].
    cbn. now rewrite <- app_assoc.
Qed.

(** X3. [open_file] holds no close guard.  When the file opens but its
    filter does not compile or cannot be activated, the exception leaves
    [open_file] with the handle still open in the reader: the listener has
    heard nothing, and the reader is busy until [close_file] is called. *)
Theorem open_file_failed_filter_keeps_handle fname bpf s h :
  d_pcap s = None ->
  (open_offline env fname).1 = Some h ->
  bpf <> "" ->
  (compile_rc env h bpf < 0 \/ setfilter_rc env h bpf < 0) ->
  let out := open_file env fname bpf s in
  out.1 = Raise (format_exception
            ((if compile_rc env h bpf <? 0
              then "Could not compile bpf filter '"
              else "Could not activate bpf filter '")
             +:+ bpf +:+ "', " +:+ pcap_geterr env h)) /\
  d_pcap out.2 = Some h /\
  handles out.2 = h :: handles s /\
  List.filter is_listener_call (calls_during (open_file env fname bpf) s) = [] /\
  open_file env fname bpf out.2 = (Raise AlreadyOpenFile, out.2) /\
  (close_file out.2).1 = Ok tt /\
  handles (close_file out.2).2 = handles s.
Proof.
  intros Hd Hop Hne Hrc. cbv zeta.
  assert (Hout : exists s',
    open_file env fname bpf s =
      (Raise (format_exception
                ((if compile_rc env h bpf <? 0
                  then "Could not compile bpf filter '"
                  else "Could not activate bpf filter '")
                 +:+ bpf +:+ "', " +:+ pcap_geterr env h)), s') /\
    session s' = (Some h, h :: handles s) /\
    trace s' = trace s ++ pcap_open_offline fname :: pcap_compile h bpf ::
                 (if compile_rc env h bpf <? 0 then [] else [pcap_setfilter h bpf])).
  { unfold open_file. rewrite Hd, bind_unfold. cbn [log modify].
    destruct (open_offline env fname) as [[h'|] errbuf]; cbn in Hop; [|discriminate].
    injection Hop as ->. rewrite bind_unfold. cbn [modify].
    unfold start_capture. rewrite bind_unfold.
    match goal with |- context [set_bpf env bpf ?x] =>
      destruct (set_bpf_failure bpf x h eq_refl Hne Hrc) as (s' & -> & Hs & Ht) end.
    exists s'. split; [reflexivity|]. split; [exact Hs|].
    rewrite Ht. cbn. now rewrite <- app_assoc. }
  unfold calls_during. destruct Hout as (s' & -> & Hs & Ht). cbn [fst snd].
  unfold session in Hs. injection Hs as Hd' Hh'.
  repeat split; try assumption.
  - rewrite Ht, drop_app_length. now destruct (_ <? _).
  - unfold open_file. now rewrite Hd'.
  - now rewrite (close_file_open _ h Hd').
  - rewrite (close_file_open _ h Hd'). cbn. now rewrite Hh', remove_first_head.
Qed.

(** X4. When the file cannot be opened, [read_file] throws "could not open"
    with the name of the file and libpcap's text; its only call is
    [pcap_open_offline], so the listener is never told of a capture, and the
    reader is what it was. *)
Theorem read_file_open_failure fname bpf s errbuf :
  d_pcap s = None ->
  open_offline env fname = (None, errbuf) ->
  read_file env fname bpf s =
    (Raise (format_exception
              ("Could not open pcap '" +:+ fname +:+ "', " +:+ errbuf)),
     set_trace (trace s ++ [pcap_open_offline fname]) s).
Proof.
  intros Hd Hop. unfold read_file, with_close_guard, open_file.
  rewrite Hd, !bind_unfold, Hd, Hop. cbn.
  f_equal. destruct s. cbn in *. now subst.
Qed.

(** X5. When the file opens but its filter fails, [read_file] closes the
    file again before the exception reaches the caller: its calls are the
    open, the compilation (and the activation, if it got that far) and the
    close; the listener is never told of a capture; no handle is left. *)
Theorem read_file_filter_failure fname bpf s h :
  d_pcap s = None ->
  (open_offline env fname).1 = Some h ->
  bpf <> "" ->
  (compile_rc env h bpf < 0 \/ setfilter_rc env h bpf < 0) ->
  let out := read_file env fname bpf s in
  out.1 = Raise (format_exception
            ((if compile_rc env h bpf <? 0
              then "Could not compile bpf filter '"
              else "Could not activate bpf filter '")
             +:+ bpf +:+ "', " +:+ pcap_geterr env h)) /\
  calls_during (read_file env fname bpf) s =
    pcap_open_offline fname :: pcap_compile h bpf ::
    (if compile_rc env h bpf <? 0 then [] else [pcap_setfilter h bpf]) ++
    [pcap_close h] /\
  d_pcap out.2 = None /\
  handles out.2 = handles s.
Proof.
  intros Hd Hop Hne Hrc. cbv zeta. unfold calls_during.
  unfold read_file, with_close_guard. rewrite Hd, bind_unfold.
  unfold open_file. rewrite Hd, bind_unfold. cbn [log modify].
  destruct (open_offline env fname) as [[h'|] errbuf]; cbn in Hop; [|discriminate].
  injection Hop as ->. rewrite bind_unfold. cbn [modify].
  unfold start_capture. rewrite bind_unfold.
  match goal with |- context [set_bpf env bpf ?x] =>
    destruct (set_bpf_failure bpf x h eq_refl Hne Hrc) as (s' & -> & Hs & Ht) end.
  unfold session in Hs. cbn in Hs. injection Hs as Hd' Hh'.
  unfold close_guard_dtor. cbn [fst snd]. rewrite Hd'. cbn.
  rewrite Hh', remove_first_head, Ht. cbn. repeat split.
  rewrite <- !app_assoc. cbn. rewrite drop_app_length.
  now destruct (_ <? _).
Qed.

(** What an [open_live_capture] that returned has done. *)
Lemma open_live_capture_returned device promiscuous bpf s :
  (open_live_capture env device promiscuous bpf s).1 = Ok tt ->
  exists h, (open_live env device promiscuous).1 = Some h /\
            session (open_live_capture env device promiscuous bpf s).2
              = (Some h, h :: handles s).
Proof.
  unfold open_live_capture. rewrite bind_unfold. cbn [log modify].
  destruct (open_live env device promiscuous) as [[h|] errbuf].
  - rewrite bind_unfold. cbn [modify]. intros _. exists h. split; [reflexivity|].
    now rewrite start_capture_session.
  - discriminate.
Qed.

(** X6. [read_packets] never closes or replaces the handle, whatever
    happens in the loop: the session after it is the session before it.  When
    the handlers and [copy_data] return, it throws exactly when
    [pcap_dispatch] returned -1; any other return value, negative ones
    included, counts as success. *)
Theorem read_packets_outcome s h :
  d_pcap s = Some h ->
  session (read_packets env s).2 = session s /\
  (read_packets env s).1 <> Abort /\
  (returns_normally env is_cleanup ->
   (read_packets env s).1 =
     if dispatch_rc env h =? -1
     then Raise (format_exception ("Pcap reader failed, " +:+ pcap_geterr env h))
     else Ok tt).
Proof.
  intros Hd. split; [apply read_packets_session|].
  split; [apply read_packets_open; congruence|].
  intros Hcalm. unfold read_packets. rewrite Hd, bind_unfold. cbn [log modify].
  rewrite bind_unfold.
  match goal with |- context [dispatch_frames env ?fs ?x] =>
    pose proof (dispatch_frames_returns env fs x Hcalm) as Hok;
    destruct (dispatch_frames env fs x) as [r s1] end.
  cbn [fst snd] in Hok. subst r. now destruct (_ =? _).
Qed.

(** X7. A live capture from start to end: after an [open_live_capture] that
    returned and a [read_packets], [close_live_capture] returns, the reader
    has no handle, and libpcap holds open what it held before the device was
    opened. *)
Theorem live_capture_round_trip device promiscuous bpf s :
  (open_live_capture env device promiscuous bpf s).1 = Ok tt ->
  let polled := (read_packets env (open_live_capture env device promiscuous bpf s).2).2 in
  (close_live_capture polled).1 = Ok tt /\
  d_pcap (close_live_capture polled).2 = None /\
  handles (close_live_capture polled).2 = handles s.
Proof.
  intros Hok. cbv zeta.
  destruct (open_live_capture_returned device promiscuous bpf s Hok) as (h & _ & Hs).
  rewrite <- read_packets_session in Hs. unfold session in Hs.
  injection Hs as Hd Hh. unfold close_live_capture. rewrite Hd.
  unfold lib_close. cbn [fst snd d_pcap handles set_d_pcap set_handles].
  now rewrite Hh, remove_first_head.
Qed.

End MoreSession.

(** ** Teardown *)

Section Teardown.
Context (env : environment).


End Teardown.

(** ** The wiring of the reader *)

Section Wiring.
Context (env : environment).

Lemma off_trace_wiring : off_trace wiring.
Proof. now intros tr s. Qed.

Lemma off_packets_wiring : off_packets wiring.
Proof. now split. Qed.

Lemma keeps_wiring_set_now ts :
  keeps wiring (tcp_reassembler_set_now env ts) /\
  keeps wiring (udp_reassembler_set_now env ts).
Proof.
  split; (apply keeps_bind; [apply keeps_ext, off_trace_wiring|]); intros _ s;
    unfold wiring, bindings; cbn;
    [destruct (d_tcp_reassembler s) | destruct (d_udp_reassembler s)]; reflexivity.
Qed.

Lemma keeps_wiring_process p :
  keeps wiring (tcp_reassembler_process env p) /\
  keeps wiring (udp_reassembler_process env p).
Proof.
  split; (apply keeps_bind; [apply keeps_ext, off_trace_wiring|]); intros _ s;
    unfold wiring, bindings; cbn;
    [destruct (d_tcp_reassembler s) | destruct (d_udp_reassembler s)]; reflexivity.
Qed.

Lemma keeps_wiring_advance_time p : keeps wiring (advance_time env p).
Proof.
  unfold advance_time.
  apply keeps_bind; [|intros _]; intros s; destruct (non_null _);
    solve [ apply keeps_wiring_set_now | reflexivity ].
Qed.

Lemma keeps_wiring_route p : keeps wiring (route env p).
Proof.
  intros s. unfold route.
  repeat case_match;
    first [ apply keeps_wiring_process | apply keeps_ext, off_trace_wiring ].
Qed.

Lemma keeps_wiring_try_block p f s : wiring (try_block env p f s).2.2 = wiring s.
Proof.
  unfold try_block, packet_t_init.
  match goal with |- context [ext env ?c ?x] =>
    pose proof (ext_state env c x) as Hst; pose proof (ext_result env c x) as Hres;
    destruct (ext env c x) as [r s1] end.
  cbn [fst snd] in *. subst s1.
  destruct r as [[]|e|]; cbn [fst snd]; try reflexivity.
  rewrite (keeps_bind wiring _ _ (keeps_wiring_advance_time p)
             (fun _ => keeps_wiring_route p)).
  reflexivity.
Qed.

Lemma keeps_wiring_catch_clauses p e : keeps wiring (catch_clauses env p e).
Proof.
  intros s. unfold catch_clauses, packet_t_release.
  repeat case_match;
    first [ apply keeps_ext, off_trace_wiring
          | apply keeps_bind;
            [apply keeps_ext, off_trace_wiring | intros _; now apply keeps_modify] ].
Qed.

Lemma keeps_wiring_copy_data p : keeps wiring (packet_t_copy_data env p).
Proof.
  unfold packet_t_copy_data.
  apply keeps_bind; [apply keeps_ext, off_trace_wiring|]. intros _.
  now apply keeps_modify.
Qed.

Lemma keeps_wiring_handle_packet f : keeps wiring (handle_packet env f).
Proof.
  intros s. rewrite handle_packet_stages. cbv zeta.
  pose proof (keeps_wiring_try_block (claim s).1 f (claim s).2) as Ht.
  rewrite claim_unfold in Ht at 2. change (wiring (set_packets _ _)) with (wiring s) in Ht.
  set (p := (claim s).1) in *.
  destruct (try_block env p f (claim s).2) as [mc [[[]|e|] s2]];
    cbn [fst snd] in *; try assumption.
  - destruct mc; [|assumption]. now rewrite keeps_wiring_copy_data.
  - pose proof (keeps_wiring_catch_clauses p e s2) as Hc.
    destruct (catch_clauses env p e s2) as [[[]|e'|] s3]; cbn [fst snd] in *;
      try congruence.
    destruct mc; [|cbn [fst snd]; congruence].
    rewrite keeps_wiring_copy_data. congruence.
Qed.

(** X9. A packet on its way through the reader changes nothing of the
    reader's wiring, whatever the outcome of the callback: the handle and
    libpcap's open handles, the filter, the link type, the listener, which
    reassemblers exist and which listener each delivers to are after
    [handle_packet], and after a whole [pcap_dispatch], what they were
    before. *)
Theorem dispatch_keeps_wiring f fs s :
  wiring (handle_packet env f s).2 = wiring s /\
  wiring (extra_callback_hop env f s).2 = wiring s /\
  wiring (dispatch_frames env fs s).2 = wiring s.
Proof.
  split; [apply keeps_wiring_handle_packet|].
  split; [apply keeps_wiring_handle_packet|].
  revert s. induction fs as [|f' fs IH]; intros s; [reflexivity|].
  cbn [dispatch_frames]. rewrite bind_unfold.
  pose proof (keeps_wiring_handle_packet f' s) as Hf.
  destruct (handle_packet env f' s) as [[[]|e|] s1]; cbn [fst snd] in *;
    try assumption.
  now rewrite IH.
Qed.

Lemma bindings_of_wiring s s' : wiring s' = wiring s -> bindings s' = bindings s.
Proof. unfold wiring. intros H. exact (f_equal snd H). Qed.

Lemma keeps_bindings_handle_packet f : keeps bindings (handle_packet env f).
Proof. intros s. apply bindings_of_wiring, keeps_wiring_handle_packet. Qed.

Lemma off_session_bindings : off_session bindings.
Proof. repeat split. Qed.

(** The session functions, for a part of the state they do not write and
    the callback keeps. *)
Section SessionKeeps.
Context {B : Type} (proj : state -> B).
Context (Hs : off_session proj) (Hcb : forall f, keeps proj (handle_packet env f)).

Let Htr : off_trace proj := proj1 Hs.

Lemma keeps_dispatch_frames fs : keeps proj (dispatch_frames env fs).
Proof.
  induction fs as [|f fs IH]; cbn [dispatch_frames]; [now intros s|].
  apply keeps_bind; [apply Hcb | intros _; exact IH].
Qed.

Lemma keeps_set_bpf bpf : keeps proj (set_bpf env bpf).
Proof.
  destruct Hs as (? & ? & Hb & ? & ?).
  intros s. unfold set_bpf.
  destruct (String.eqb bpf ""); [reflexivity|].
  destruct (d_pcap s) as [h|]; [|reflexivity].
  destruct (compile_rc env h bpf <? 0), (setfilter_rc env h bpf <? 0);
    match goal with |- proj (?m s).2 = _ => enough (keeps proj m) by easy end;
    frame; apply Hb.
Qed.

Lemma keeps_start_capture name bpf h : keeps proj (start_capture env name bpf h).
Proof.
  destruct Hs as (? & ? & ? & Hl & ?).
  unfold start_capture. apply keeps_bind; [apply keeps_set_bpf|]. intros _.
  apply keeps_bind; [frame|]. intros _.
  apply keeps_bind; [frame; apply Hl|]. intros _.
  intros s. now apply (keeps_ext env proj).
Qed.

Lemma keeps_open_file fname bpf : keeps proj (open_file env fname bpf).
Proof.
  destruct Hs as (? & Hp & ? & ? & Hh).
  intros s. unfold open_file. destruct (d_pcap s); [reflexivity|].
  match goal with |- proj (?m s).2 = _ => enough (keeps proj m) by easy end.
  apply keeps_bind; [frame|]. intros _.
  destruct (open_offline env fname) as [[h|] errbuf].
  - apply keeps_bind; [|intros _; apply keeps_start_capture].
    apply keeps_modify. intros s'. now rewrite Hp, Hh.
  - frame. apply Hp.
Qed.

Lemma keeps_open_live_capture device promiscuous bpf :
  keeps proj (open_live_capture env device promiscuous bpf).
Proof.
  destruct Hs as (? & Hp & ? & ? & Hh).
  unfold open_live_capture. apply keeps_bind; [frame|]. intros _.
  destruct (open_live env device promiscuous) as [[h|] errbuf].
  - apply keeps_bind; [|intros _; apply keeps_start_capture].
    apply keeps_modify. intros s'. now rewrite Hp, Hh.
  - frame. apply Hp.
Qed.

Lemma keeps_read_packets : keeps proj (read_packets env).
Proof.
  intros s. unfold read_packets. destruct (d_pcap s) as [h|]; [|reflexivity].
  match goal with |- proj (?m s).2 = _ => enough (keeps proj m) by easy end.
  apply keeps_bind; [frame|]. intros _.
  apply keeps_bind; [apply keeps_dispatch_frames|]. intros _.
  destruct (_ =? _); frame.
Qed.

Lemma keeps_close_guard_dtor s : proj (close_guard_dtor s) = proj s.
Proof.
  destruct Hs as (? & Hp & ? & ? & Hh).
  unfold close_guard_dtor, lib_close. destruct (d_pcap s); [|reflexivity].
  now rewrite Hp, Hh, Htr.
Qed.

Lemma keeps_read_file fname bpf : keeps proj (read_file env fname bpf).
Proof.
  intros s. unfold read_file, with_close_guard.
  destruct (d_pcap s); [reflexivity|].
  pose proof (keeps_bind proj _ _ (keeps_open_file fname bpf)
                (fun _ => keeps_read_packets) s) as Hb.
  destruct ((open_file env fname bpf >> read_packets env) s) as [[[]|e|] s1];
    cbn [fst snd] in *; rewrite ?keeps_close_guard_dtor; exact Hb.
Qed.

Lemma keeps_close s : proj (close_file s).2 = proj s /\ proj (close_live_capture s).2 = proj s.
Proof.
  destruct Hs as (? & Hp & ? & ? & Hh).
  unfold close_file, close_live_capture, lib_close.
  destruct (d_pcap s); cbn [fst snd]; rewrite ?Hp, ?Hh, ?Htr; now split.
Qed.

End SessionKeeps.

Lemma agree_of_bindings s s' :
  bindings s' = bindings s -> listeners_agree s -> listeners_agree s'.
Proof.
  unfold bindings, listeners_agree. intros [= Hl Ht Hu] [At Au]. rewrite Hl.
  split; intros r Hr; rewrite Hr in *; cbn in *.
  - destruct (d_tcp_reassembler s) as [r0|]; [|discriminate].
    injection Ht as ->. now apply At.
  - destruct (d_udp_reassembler s) as [r0|]; [|discriminate].
    injection Hu as ->. now apply Au.
Qed.

(** X10. Every active reassembler delivers to the reader's listener.  The
    constructor establishes this; the two switches keep it; a [set_listener]
    that returns establishes it for the new listener, whatever was the case
    before; and neither the callback nor any function of the capture session
    ([open_file], [read_file], [open_live_capture], [read_packets], the two
    close functions) rebinds anything, whatever their outcome. *)
Theorem listeners_agree_invariant :
  (forall l junk, listeners_agree (pcap_reader_t l junk)) /\
  (forall en s, listeners_agree s ->
     listeners_agree (enable_tcp_reassembly en s) /\
     listeners_agree (enable_udp_reassembly en s)) /\
  (forall l s, (set_listener env l s).1 = Ok tt ->
     d_listener (set_listener env l s).2 = l /\
     listeners_agree (set_listener env l s).2) /\
  (forall s, listeners_agree s ->
     (forall f, listeners_agree (handle_packet env f s).2) /\
     (forall fname bpf, listeners_agree (open_file env fname bpf s).2) /\
     (forall fname bpf, listeners_agree (read_file env fname bpf s).2) /\
     (forall device promiscuous bpf,
        listeners_agree (open_live_capture env device promiscuous bpf s).2) /\
     listeners_agree (read_packets env s).2 /\
     listeners_agree (close_file s).2 /\
     listeners_agree (close_live_capture s).2).
Proof.
  refine (conj _ (conj _ (conj _ _))).
  - intros l junk. split; intros r [= <-]; reflexivity.
  - intros en s [At Au]. unfold enable_tcp_reassembly, enable_udp_reassembly.
    split; split; intros r; destruct en;
      destruct (d_tcp_reassembler s) eqn:Ht, (d_udp_reassembler s) eqn:Hu;
      cbn; rewrite ?Ht, ?Hu; intros [= <-]; auto.
  - intros l s. unfold set_listener, bind, ret, modify, ext.
    destruct (d_tcp_reassembler s) as [rt|] eqn:Ht,
             (d_udp_reassembler s) as [ru|] eqn:Hu; cbn [non_null];
      repeat (match goal with
              | |- context [throws env ?tr ?c] => destruct (throws env tr c)
              end; cbn; rewrite ?Ht, ?Hu; cbn);
      try discriminate; intros _; (split; [reflexivity|]);
      split; intros r; cbn; rewrite ?Ht, ?Hu; cbn; intros [= <-]; reflexivity.
  - intros s Hag.
    pose proof off_session_bindings as Ho.
    pose proof keeps_bindings_handle_packet as Hcb.
    refine (conj _ (conj _ (conj _ (conj _ (conj _ (conj _ _)))))); intros;
      (eapply agree_of_bindings; [|exact Hag]).
    + apply Hcb.
    + now apply keeps_open_file.
    + now apply keeps_read_file.
    + now apply keeps_open_live_capture.
    + now apply keeps_read_packets.
    + now apply keeps_close.
    + now apply keeps_close.
Qed.

End Wiring.

(** ** The branches of the routing *)

Section RoutingFacts.
Context (env : environment).

Lemma filter_none (P Q : call -> bool) d :
  (forall c, Q c = true -> P c = false) ->
  forallb Q d = true -> List.filter P d = [].
Proof.
  intros HQP. induction d as [|c d IH]; [reflexivity|]. cbn.
  intros [Hc Hd]%andb_prop. now rewrite (HQP c Hc), IH.
Qed.

Lemma appends_calls {A} (m : M A) s :
  appends m -> trace (m s).2 = trace s ++ calls_during m s.
Proof.
  intros Ha. destruct (Ha s) as [d Hd].
  now rewrite (calls_during_spec m s d Hd).
Qed.

Lemma non_null_fmap {A B} (g : A -> B) (o : option A) :
  non_null (g <$> o) = non_null o.
Proof. now destruct o. Qed.

Lemma wiring_enablement s s' :
  wiring s' = wiring s ->
  d_listener s' = d_listener s /\
  non_null (d_tcp_reassembler s') = non_null (d_tcp_reassembler s) /\
  non_null (d_udp_reassembler s') = non_null (d_udp_reassembler s).
Proof.
  intros H. apply bindings_of_wiring in H. unfold bindings in H.
  injection H as Hl Ht Hu. split; [exact Hl|].
  rewrite <- !(non_null_fmap r_listener). now rewrite Ht, Hu.
Qed.

(** The three ways out of the [if] / [else if] chain. *)
Lemma route_udp p s :
  non_null (d_udp_reassembler s) = true ->
  udp_on_top (p_layers (deref p s)) = true ->
  (2 <= length (p_layers (deref p s)))%nat ->
  route env p s = udp_reassembler_process env p s.
Proof.
  intros Hu Htop Hlen. unfold route, layer, udp_on_top in *. cbn.
  rewrite <- length_rev in Hlen.
  destruct (rev (p_layers (deref p s))) as [|a [|b r]]; cbn in *; try lia.
  rewrite Hu. destruct (non_null (d_tcp_reassembler s));
    destruct a; try discriminate; try reflexivity;
    destruct b; try discriminate; reflexivity.
Qed.

Lemma route_short p s :
  (length (p_layers (deref p s)) < 2)%nat ->
  route env p s = ext env (accept (d_listener s) p) s.
Proof.
  intros Hlen. unfold route, layer. cbn.
  rewrite <- length_rev in Hlen.
  destruct (rev (p_layers (deref p s))) as [|a [|b r]]; cbn in *;
    [reflexivity | reflexivity | lia].
Qed.

Lemma route_unmatched p s :
  non_null (d_tcp_reassembler s) && tcp_on_top (p_layers (deref p s)) = false ->
  non_null (d_udp_reassembler s) && udp_on_top (p_layers (deref p s)) = false ->
  route env p s = ext env (accept (d_listener s) p) s.
Proof.
  intros Ht Hu. unfold route, layer, tcp_on_top, udp_on_top in *. cbn.
  destruct (rev (p_layers (deref p s))) as [|a [|b r]]; cbn in *;
    [reflexivity | reflexivity |].
  destruct (non_null (d_tcp_reassembler s)), (non_null (d_udp_reassembler s));
    cbn in *; destruct a; try discriminate; try reflexivity;
    destruct b; try discriminate; reflexivity.
Qed.

End RoutingFacts.

(** ** The calls of a callback, whatever the collaborators do *)

Section Calls.
Context (env : environment).

Lemma filter_all (P : call -> bool) d :
  forallb P d = true -> List.filter P d = d.
Proof.
  induction d as [|c d IH]; [reflexivity|]. cbn.
  intros [Hc Hd]%andb_prop. now rewrite Hc, IH.
Qed.

Lemma forallb_weaken (P Q : call -> bool) d :
  (forall c, P c = true -> Q c = true) ->
  forallb P d = true -> forallb Q d = true.
Proof.
  intros HPQ. induction d as [|c d IH]; [reflexivity|]. cbn.
  intros [Hc Hd]%andb_prop. now rewrite (HPQ c Hc), IH.
Qed.

Lemma advance_time_shape p s :
  exists d, trace (advance_time env p s).2 = trace s ++ d /\
            forallb is_set_now d = true /\
            (advance_time env p s).1 <> Abort.
Proof.
  unfold advance_time, tcp_reassembler_set_now, udp_reassembler_set_now,
    bind, ext, modify, ret.
  destruct (non_null (d_tcp_reassembler s));
    [destruct (throws env (trace s) _)|]; cbn;
    try (match goal with |- context [non_null ?x] => destruct (non_null x) end;
         [match goal with |- context [throws env ?t ?c] => destruct (throws env t c) end|];
         cbn);
    eexists; (split; [rewrite <- ?app_assoc; reflexivity || (symmetry; apply app_nil_r)|]);
    now split.
Qed.

Lemma route_outcome p s :
  exists c, is_routing c = true /\
            trace (route env p s).2 = trace s ++ [c] /\
            (route env p s).1 =
              match throws env (trace s) c with Some e => Raise e | None => Ok tt end.
Proof.
  unfold route, tcp_reassembler_process, udp_reassembler_process.
  destruct (layer (deref p s) (-1)) as [top|], (layer (deref p s) (-2)) as [second|];
    repeat match goal with |- context [if ?b then _ else _] => destruct b end;
    rewrite ?bind_unfold;
    match goal with |- context [ext env ?c s] => exists c end;
    (split; [reflexivity|]); unfold ext;
    match goal with |- context [throws env ?t ?c] => destruct (throws env t c) end;
    now split.
Qed.

(** The [try] block: [init], then [set_now] calls, then at most one routing
    call.  Without a routing call the block has thrown. *)
Lemma try_block_shape p f s :
  let t := try_block env p f s in
  exists d_adv d_route,
    trace t.2.2 = trace s ++ packet_init p (d_linktype s) f :: d_adv ++ d_route /\
    forallb is_set_now d_adv = true /\
    ((d_route = [] /\ exists e, t.2.1 = Raise e) \/
     (exists c, d_route = [c] /\ is_routing c = true /\
                (t.2.1 = Ok tt \/ exists e, t.2.1 = Raise e) /\
                (returns_normally env is_routing -> t.2.1 = Ok tt))).
Proof.
  cbv zeta. unfold try_block, packet_t_init, ext. cbn [trace set_packets].
  destruct (throws env (trace s) _) as [e|]; cbn [fst snd].
  { exists [], []. split; [reflexivity|]. split; [reflexivity|]. left. eauto. }
  rewrite bind_unfold.
  match goal with |- context [advance_time env p ?x] =>
    destruct (advance_time_shape p x) as (d & Hd & Hset & Hab);
    destruct (advance_time env p x) as [[[]|e|] s2] end;
    cbn [fst snd trace set_trace] in *; [| |easy].
  - destruct (route_outcome p s2) as (c & Hc & Htr & Hres).
    exists d, [c]. rewrite Htr, Hd, <- !app_assoc. split; [reflexivity|].
    split; [exact Hset|]. right. exists c. split; [reflexivity|]. split; [exact Hc|].
    rewrite Hres. split.
    + destruct (throws env (trace s2) c); eauto.
    + intros H. now rewrite (H _ c Hc).
  - exists d, []. rewrite Hd, <- !app_assoc, app_nil_r.
    split; [reflexivity|]. split; [exact Hset|]. left. eauto.
Qed.

(** After the [try] block: the call of the handler when the block threw,
    then nothing or the copy. *)
Lemma handle_packet_tail f s :
  let p := (claim s).1 in
  let t := try_block env p f (claim s).2 in
  exists rest,
    trace (handle_packet env f s).2 =
      trace t.2.2 ++
      match t.2.1 with
      | Raise e => [handler_call env (d_listener s) p e]
      | _ => []
      end ++ rest /\
    (rest = [] \/ rest = [packet_copy_data p]).
Proof.
  cbv zeta. rewrite handle_packet_stages. cbv zeta.
  pose proof (try_block_facts env (claim s).1 f (claim s).2) as HF. cbv zeta in HF.
  destruct HF as (_ & Hab & _ & _ & _ & Hli).
  destruct (claim_reader s) as (_ & Hli' & _). rewrite Hli' in Hli. clear Hli'.
  set (p := (claim s).1) in *.
  destruct (try_block env p f (claim s).2) as [mc [r s2]]. cbn [fst snd] in *.
  assert (Hcopy : forall s3,
    exists rest,
      trace (if mc then packet_t_copy_data env p s3 else (Ok tt, s3)).2 =
        trace s3 ++ rest /\ (rest = [] \/ rest = [packet_copy_data p])).
  { intros s3. destruct mc.
    - exists [packet_copy_data p]. split; [apply copy_data_outcome | now right].
    - exists []. split; [symmetry; apply app_nil_r | now left]. }
  destruct r as [[]|e|]; [| |easy].
  - destruct (Hcopy s2) as (rest & Hr & Hrest). exists rest. now split.
  - destruct (catch_clauses_outcome env p e s2) as (_ & Htr & _).
    rewrite Hli in Htr.
    destruct (catch_clauses env p e s2) as [[[]|e'|] s3]; cbn [fst snd] in *.
    + destruct (Hcopy s3) as (rest & Hr & Hrest). exists rest.
      split; [|exact Hrest]. now rewrite Hr, Htr, <- app_assoc.
    + exists []. split; [|now left]. now rewrite Htr, app_nil_r.
    + exists []. split; [|now left]. now rewrite Htr, app_nil_r.
Qed.

Lemma handler_call_is_sink l p e :
  is_sink (handler_call env l p e) = true /\
  is_init (handler_call env l p e) = false /\
  is_pcap_call (handler_call env l p e) = false.
Proof.
  unfold handler_call.
  destruct e; try destruct (UNKNOWN_LAYER_AS_ERROR env); now repeat split.
Qed.

(** All the calls of a callback, in order. *)
Lemma handle_packet_calls f s :
  let p := (claim s).1 in
  exists d_adv d_route handled rest,
    calls_during (handle_packet env f) s =
      packet_init p (d_linktype s) f :: d_adv ++ d_route ++ handled ++ rest /\
    forallb is_set_now d_adv = true /\
    forallb is_routing d_route = true /\
    forallb (fun c => is_sink c && negb (is_routing c)) handled = true /\
    (rest = [] \/ rest = [packet_copy_data p]) /\
    (1 <= length d_route + length handled <= 2)%nat /\
    (returns_normally env is_routing ->
     (length d_route + length handled = 1)%nat).
Proof.
  cbv zeta.
  destruct (try_block_shape (claim s).1 f (claim s).2)
    as (d_adv & d_route & Htr & Hset & Hroute).
  destruct (handle_packet_tail f s) as (rest & Htail & Hrest).
  cbv zeta in *. rewrite claim_trace in Htr.
  destruct (claim_reader s) as (Hlt & _). rewrite Hlt in Htr.
  rewrite Htr, <- !app_assoc in Htail. cbn [app] in Htail.
  rewrite <- !app_assoc in Htail.
  apply calls_during_spec in Htail.
  set (p := (claim s).1) in *.
  destruct Hroute as [[-> [e He]] | (c & -> & Hc & Hres & Hcalm)].
  - rewrite He in Htail.
    exists d_adv, [], [handler_call env (d_listener s) p e], rest.
    destruct (handler_call_is_sink (d_listener s) p e) as (Hs & _).
    repeat split; try assumption; cbn; try lia.
    rewrite Hs. cbn.
    unfold handler_call. now destruct e; try destruct (UNKNOWN_LAYER_AS_ERROR env).
  - destruct Hres as [Hok | [e He]].
    + rewrite Hok in Htail. exists d_adv, [c], [], rest.
      repeat split; try assumption; cbn; try lia. now rewrite Hc.
    + rewrite He in Htail.
      exists d_adv, [c], [handler_call env (d_listener s) p e], rest.
      destruct (handler_call_is_sink (d_listener s) p e) as (Hs & _).
      repeat split; try assumption; cbn; try lia.
      * now rewrite Hc.
      * rewrite Hs. cbn.
        unfold handler_call. now destruct e; try destruct (UNKNOWN_LAYER_AS_ERROR env).
      * intros H. rewrite (Hcalm H) in He. discriminate.
Qed.

(** X14. Every callback gives the packet of its frame to somebody, whatever
    the collaborators do: among its calls there is at least one, and at most
    two, of [accept], [accept_error], a reassembler's [process] and
    [release].  There are two only when the routing call itself threw and
    the packet went to a handler as well; when [accept] and [process]
    return, the packet has exactly one receiver. *)
Theorem handle_packet_hands_packet_on f s :
  let receivers := List.filter is_sink (calls_during (handle_packet env f) s) in
  (1 <= length receivers <= 2)%nat /\
  (returns_normally env is_routing -> length receivers = 1%nat).
Proof.
  cbv zeta.
  destruct (handle_packet_calls f s)
    as (d_adv & d_route & handled & rest & -> & Hset & Hr & Hh & Hrest & Hn & Hone).
  assert (Hf : List.filter is_sink
                 (packet_init (claim s).1 (d_linktype s) f
                    :: d_adv ++ d_route ++ handled ++ rest)
               = d_route ++ handled).
  { cbn. rewrite !List.filter_app.
    rewrite (filter_none is_sink is_set_now d_adv ltac:(intros []; cbn; congruence) Hset).
    rewrite (filter_all is_sink d_route).
    2:{ revert Hr. apply forallb_weaken. intros []; cbn; congruence. }
    rewrite (filter_all is_sink handled).
    2:{ revert Hh. apply forallb_weaken. intros c Hc. now apply andb_prop in Hc. }
    destruct Hrest as [-> | ->]; cbn; now rewrite ?app_nil_r. }
  rewrite Hf, length_app. split; [exact Hn | exact Hone].
Qed.

(** A callback parses its frame once and never calls libpcap. *)
Lemma handle_packet_parses_once f s :
  List.filter is_init (calls_during (handle_packet env f) s)
    = [packet_init (claim s).1 (d_linktype s) f] /\
  List.filter is_pcap_call (calls_during (handle_packet env f) s) = [].
Proof.
  destruct (handle_packet_calls f s)
    as (d_adv & d_route & handled & rest & -> & Hset & Hr & Hh & Hrest & _).
  assert (Hnone : forall P : call -> bool,
    (forall c, is_set_now c = true -> P c = false) ->
    (forall c, is_sink c = true -> P c = false) ->
    P (packet_copy_data (claim s).1) = false ->
    List.filter P (d_adv ++ d_route ++ handled ++ rest) = []).
  { intros P Hp1 Hp2 Hp3. rewrite !List.filter_app.
    rewrite (filter_none P is_set_now d_adv Hp1 Hset).
    rewrite (filter_none P is_routing d_route).
    2:{ intros c Hc. apply Hp2. now destruct c. }
    2:{ exact Hr. }
    rewrite (filter_none P _ handled (fun c Hc => Hp2 c (proj1 (andb_prop _ _ Hc))) Hh).
    destruct Hrest as [-> | ->]; cbn; now rewrite ?Hp3. }
  split; cbn; rewrite Hnone; try reflexivity; intros []; cbn; congruence.
Qed.

(** X15. [pcap_dispatch], seen from outside: it never calls into libpcap
    from a callback; no frame is parsed twice; and when the handlers and
    [copy_data] return, every frame of the buffer is parsed, exactly once. *)
Theorem dispatch_parses_each_frame_once fs s :
  let calls := calls_during (dispatch_frames env fs) s in
  List.filter is_pcap_call calls = [] /\
  (length (List.filter is_init calls) <= length fs)%nat /\
  (returns_normally env is_cleanup ->
   length (List.filter is_init calls) = length fs).
Proof.
  cbv zeta. revert s. induction fs as [|f fs IH]; intros s.
  { unfold calls_during. cbn. rewrite drop_all. now repeat split. }
  destruct (handle_packet_parses_once f s) as [Hinit Hpcap].
  pose proof (appends_calls (handle_packet env f) s (appends_handle_packet env f)) as Hf.
  pose proof (handle_packet_outcome env f s) as Hout. cbv zeta in Hout.
  destruct Hout as (_ & _ & _ & _ & Hret).
  cbn [dispatch_frames].
  assert (Hcalls : exists tl,
    calls_during (handle_packet env f >> dispatch_frames env fs) s =
      calls_during (handle_packet env f) s ++ tl /\
    List.filter is_pcap_call tl = [] /\
    (length (List.filter is_init tl) <= length fs)%nat /\
    (returns_normally env is_cleanup -> length (List.filter is_init tl) = length fs)).
  { unfold calls_during at 1. rewrite bind_unfold.
    destruct (handle_packet env f s) as [[[]|e|] s1] eqn:Hrun; cbn [fst snd] in *.
    - exists (calls_during (dispatch_frames env fs) s1).
      split; [|apply IH].
      rewrite (appends_calls _ s1 (appends_dispatch_frames env fs)), Hf.
      now rewrite <- app_assoc, drop_app_length.
    - exists []. rewrite Hf, drop_app_length, app_nil_r.
      repeat split; cbn; try lia. intros H. now specialize (Hret H).
    - exists []. rewrite Hf, drop_app_length, app_nil_r.
      repeat split; cbn; try lia. intros H. now specialize (Hret H). }
  destruct Hcalls as (tl & -> & Hp & Hle & Heq).
  rewrite !List.filter_app, Hinit, Hpcap, Hp, length_app. cbn.
  repeat split; try lia. intros H. now rewrite (Heq H).
Qed.

End Calls.

(** ** Where the packet of a frame goes *)

Section Routing.
Context (env : environment).

Lemma filter_within (P Q : call -> bool) d :
  (forall c, P c = true -> Q c = true) ->
  List.filter P d = List.filter P (List.filter Q d).
Proof.
  intros HPQ. induction d as [|c d IH]; [reflexivity|]. cbn.
  destruct (Q c) eqn:Hq; cbn.
  - now rewrite IH.
  - destruct (P c) eqn:Hp; [|exact IH]. rewrite (HPQ c Hp) in Hq. discriminate.
Qed.

Lemma process_trace p s :
  trace (tcp_reassembler_process env p s).2 = trace s ++ [tcp_process p] /\
  trace (udp_reassembler_process env p s).2 = trace s ++ [udp_process p].
Proof.
  unfold tcp_reassembler_process, udp_reassembler_process.
  rewrite !bind_unfold. unfold ext.
  split; match goal with |- context [throws env ?t ?c] => destruct (throws env t c) end;
    reflexivity.
Qed.

(** A [try] block that is left normally has parsed the frame, has called
    [set_now] on the active reassemblers, and has ended in the routing of the
    parsed packet. *)
Lemma try_block_returned p f s :
  (try_block env p f s).2.1 = Ok tt ->
  exists s2 d_adv,
    (try_block env p f s).2 = route env p s2 /\
    deref p s2 = parsed_packet env (d_linktype s) f /\
    wiring s2 = wiring s /\
    trace s2 = trace s ++ packet_init p (d_linktype s) f :: d_adv /\
    forallb is_set_now d_adv = true.
Proof.
  unfold try_block, packet_t_init, ext. cbn [trace set_packets].
  destruct (throws env (trace s) _) as [e|]; cbn [fst snd]; [discriminate|].
  rewrite bind_unfold.
  match goal with |- context [advance_time env p ?x] => set (s1 := x) end.
  destruct (advance_time_shape env p s1) as (d & Hd & Hset & _).
  pose proof (keeps_wiring_advance_time env p s1) as Hw.
  pose proof (keeps_advance_time env packets passive_packets p s1) as Hpk.
  destruct (advance_time env p s1) as [[[]|e|] s2]; cbn [fst snd] in *;
    try discriminate.
  intros _. exists s2, d. split; [reflexivity|].
  split. { unfold deref. rewrite Hpk. subst s1. cbn. now rewrite lookup_insert_eq. }
  split. { now rewrite Hw. }
  split; [|exact Hset]. rewrite Hd. subst s1. cbn. now rewrite <- app_assoc.
Qed.

(** When the [try] block of a frame is left normally and its routing is the
    one call [c], that call is the only handing-over of the packet. *)
Lemma handle_packet_single_receiver f s c :
  (try_block env (claim s).1 f (claim s).2).2.1 = Ok tt ->
  is_sink c = true ->
  (forall s2,
     deref (claim s).1 s2 = parsed_packet env (d_linktype s) f ->
     wiring s2 = wiring s ->
     calls_during (route env (claim s).1) s2 = [c]) ->
  List.filter is_sink (calls_during (handle_packet env f) s) = [c].
Proof.
  intros Hok Hc Hroute.
  destruct (try_block_returned _ f _ Hok) as (s2 & d & Ht & Hd & Hw & Htr & Hset).
  destruct (handle_packet_tail env f s) as (rest & Htail & Hrest).
  cbv zeta in Htail. rewrite Hok, Ht in Htail. rewrite Ht in Hok.
  destruct (claim_reader s) as (Hlt & _). rewrite Hlt in Hd, Htr.
  rewrite claim_trace in Htr.
  assert (Hw' : wiring s2 = wiring s).
  { rewrite Hw, claim_unfold. reflexivity. }
  rewrite (appends_calls _ s2 (appends_route env _)), (Hroute s2 Hd Hw'), Htr in Htail.
  rewrite <- !app_assoc in Htail. cbn [app] in Htail.
  rewrite (calls_during_spec _ _ _ Htail). cbn.
  rewrite !List.filter_app.
  rewrite (filter_none is_sink is_set_now d ltac:(intros []; cbn; congruence) Hset).
  cbn. rewrite Hc. now destruct Hrest as [-> | ->].
Qed.

(** C2 (amended). For a frame that parses to at least two layers, with TCP
    on top or data directly above TCP, while TCP reassembly is enabled and the
    [try] block is left normally for this frame (its parsing, its [set_now]
    calls and its [process] call return): the callback calls the TCP
    reassembler's [process] exactly once, on the packet of that frame, and
    calls neither [accept] nor [accept_error].  Nothing is asked of any other
    frame. *)
Theorem tcp_frames_go_to_the_reassembler f s :
  let p := (claim s).1 in
  let ls := parsed_layers (parse env (d_linktype s) f) in
  let calls := calls_during (handle_packet env f) s in
  non_null (d_tcp_reassembler s) = true ->
  tcp_on_top ls = true ->
  (2 <= length ls)%nat ->
  (try_block env p f (claim s).2).2.1 = Ok tt ->
  List.filter is_tcp_process calls = [tcp_process p] /\
  List.filter is_delivery calls = [].
Proof.
  intros p ls calls Htcp Htop Hlen Hok.
  assert (Hs : List.filter is_sink calls = [tcp_process p]).
  { apply handle_packet_single_receiver; [exact Hok | reflexivity |].
    intros s2 Hd Hw. destruct (wiring_enablement s s2 Hw) as (_ & Hnt & _).
    apply calls_during_spec.
    rewrite route_tcp; [apply process_trace | congruence | now rewrite Hd | now rewrite Hd]. }
  split.
  - rewrite (filter_within is_tcp_process is_sink) by (intros []; cbn; congruence).
    now rewrite Hs.
  - rewrite (filter_within is_delivery is_sink) by (intros []; cbn; congruence).
    now rewrite Hs.
Qed.

(** X11. For a frame that parses to at least two layers, with UDP on top or
    data directly above UDP, while UDP reassembly is enabled and the [try]
    block is left normally for this frame: the one receiver of the packet is
    the UDP reassembler's [process]; the listener and the TCP reassembler do
    not see it, whether or not TCP reassembly is enabled. *)
Theorem udp_frames_go_to_the_reassembler f s :
  let p := (claim s).1 in
  let ls := parsed_layers (parse env (d_linktype s) f) in
  non_null (d_udp_reassembler s) = true ->
  udp_on_top ls = true ->
  (2 <= length ls)%nat ->
  (try_block env p f (claim s).2).2.1 = Ok tt ->
  List.filter is_sink (calls_during (handle_packet env f) s) = [udp_process p].
Proof.
  intros p ls Hu Htop Hlen Hok.
  apply handle_packet_single_receiver; [exact Hok | reflexivity |].
  intros s2 Hd Hw. destruct (wiring_enablement s s2 Hw) as (_ & _ & Hnu).
  apply calls_during_spec.
  rewrite route_udp; [apply process_trace | congruence | now rewrite Hd | now rewrite Hd].
Qed.

(** X12. A frame that parses to fewer than two layers goes straight to the
    listener's [accept], whatever the layer is and whether or not the
    reassemblers are enabled, when the [try] block is left normally for this
    frame. *)
Theorem short_stacks_are_accepted f s :
  let p := (claim s).1 in
  (length (parsed_layers (parse env (d_linktype s) f)) < 2)%nat ->
  (try_block env p f (claim s).2).2.1 = Ok tt ->
  List.filter is_sink (calls_during (handle_packet env f) s)
    = [accept (d_listener s) p].
Proof.
  intros p Hlen Hok.
  apply handle_packet_single_receiver; [exact Hok | reflexivity |].
  intros s2 Hd Hw. destruct (wiring_enablement s s2 Hw) as (Hl & _).
  apply calls_during_spec.
  rewrite route_short by now rewrite Hd.
  now rewrite ext_state, Hl.
Qed.

(** X13. The last branch: a frame that matches neither an enabled TCP
    reassembler (TCP on top, or data above TCP) nor an enabled UDP
    reassembler goes straight to the listener's [accept], when the [try]
    block is left normally for this frame.  So a TCP frame is delivered
    directly when TCP reassembly is off. *)
Theorem unmatched_frames_are_accepted f s :
  let p := (claim s).1 in
  let ls := parsed_layers (parse env (d_linktype s) f) in
  non_null (d_tcp_reassembler s) && tcp_on_top ls = false ->
  non_null (d_udp_reassembler s) && udp_on_top ls = false ->
  (try_block env p f (claim s).2).2.1 = Ok tt ->
  List.filter is_sink (calls_during (handle_packet env f) s)
    = [accept (d_listener s) p].
Proof.
  intros p ls Ht Hu Hok.
  apply handle_packet_single_receiver; [exact Hok | reflexivity |].
  intros s2 Hd Hw. destruct (wiring_enablement s s2 Hw) as (Hl & Hnt & Hnu).
  apply calls_during_spec.
  rewrite route_unmatched by (rewrite Hd, ?Hnt, ?Hnu; assumption).
  now rewrite ext_state, Hl.
Qed.

End Routing.

(** ** The further theorems at work *)

(** X1, on a capture file opened and closed again. *)
Lemma open_file_close_file_witness :
  (close_file (open_file tcp_env "a.pcap" "" idle_reader).2).1 = Ok tt /\
  d_pcap (close_file (open_file tcp_env "a.pcap" "" idle_reader).2).2 = None /\
  handles (close_file (open_file tcp_env "a.pcap" "" idle_reader).2).2 = [].
Proof.
  destruct (open_file_close_file tcp_env "a.pcap" "" idle_reader)
    as (Hok & Hd & Hh & _); [reflexivity|].
  split; [exact Hok|]. split; [exact Hd | exact Hh].
Defined.

(** X2, on a second file while the first is open. *)
Lemma open_file_excludes_further_opens_witness :
  (read_file tcp_env "b.pcap" "" (open_file tcp_env "a.pcap" "" idle_reader).2).1
    = Raise AlreadyOpen.
Proof.
  destruct (open_file_excludes_further_opens tcp_env "a.pcap" "" "b.pcap" ""
              idle_reader) as [_ Hr]; [reflexivity|].
  now rewrite Hr.
Defined.

(** X3, on a filter that does not compile. *)
Lemma open_file_failed_filter_keeps_handle_witness :
  (open_file (with_failures (-1) 0 quiet) "a.pcap" "tcp" idle_reader).1
    = Raise (format_exception "Could not compile bpf filter 'tcp', error") /\
  d_pcap (open_file (with_failures (-1) 0 quiet) "a.pcap" "tcp" idle_reader).2
    = Some 7%nat.
Proof.
  destruct (open_file_failed_filter_keeps_handle (with_failures (-1) 0 quiet)
              "a.pcap" "tcp" idle_reader 7%nat) as (Hr & Hd & _).
  - reflexivity.
  - reflexivity.
  - discriminate.
  - left. cbn. lia.
  - split; [exact Hr | exact Hd].
Defined.

(** X4, on a file that is not there. *)
Lemma read_file_open_failure_witness :
  calls_during (read_file tcp_env "missing.pcap" "tcp") idle_reader
    = [pcap_open_offline "missing.pcap"].
Proof.
  unfold calls_during.
  rewrite (read_file_open_failure tcp_env "missing.pcap" "tcp" idle_reader
             "No such file"); reflexivity.
Defined.

(** X5, on a filter that does not compile. *)
Lemma read_file_filter_failure_witness :
  calls_during (read_file (with_failures (-1) 0 quiet) "a.pcap" "tcp") idle_reader
    = [pcap_open_offline "a.pcap"; pcap_compile 7%nat "tcp"; pcap_close 7%nat] /\
  d_pcap (read_file (with_failures (-1) 0 quiet) "a.pcap" "tcp" idle_reader).2 = None.
Proof.
  destruct (read_file_filter_failure (with_failures (-1) 0 quiet)
              "a.pcap" "tcp" idle_reader 7%nat) as (_ & Hc & Hd & _).
  - reflexivity.
  - reflexivity.
  - discriminate.
  - left. cbn. lia.
  - split; [exact Hc | exact Hd].
Defined.

(** X6, on a read loop that fails while a live capture is open. *)
Lemma read_packets_outcome_witness :
  session (read_packets (with_failures 0 (-1) quiet) busy_reader).2
    = (Some 3%nat, [3%nat]) /\
  (read_packets (with_failures 0 (-1) quiet) busy_reader).1
    = Raise (format_exception "Pcap reader failed, error").
Proof.
  destruct (read_packets_outcome (with_failures 0 (-1) quiet) busy_reader 3%nat)
    as (Hs & _ & Hr); [reflexivity|].
  split; [exact Hs|]. apply Hr. intros tr c _. reflexivity.
Defined.

(** X7, on a live capture opened, polled once and closed. *)
Lemma live_capture_round_trip_witness :
  d_pcap (close_live_capture
            (read_packets tcp_env
               (open_live_capture tcp_env "eth0" false "" idle_reader).2).2).2 = None /\
  handles (close_live_capture
             (read_packets tcp_env
                (open_live_capture tcp_env "eth0" false "" idle_reader).2).2).2 = [].
Proof.
  destruct (live_capture_round_trip tcp_env "eth0" false "" idle_reader)
    as (_ & Hd & Hh); [reflexivity|].
  split; [exact Hd | exact Hh].
Defined.


(** X10, on a reader whose listener is replaced and which then reads a
    file. *)
Lemma listeners_agree_invariant_witness :
  listeners_agree
    (read_file tcp_env "a.pcap" "" (set_listener tcp_env 2%nat idle_reader).2).2 /\
  d_listener (set_listener tcp_env 2%nat idle_reader).2 = 2%nat.
Proof.
  destruct (listeners_agree_invariant tcp_env) as (_ & _ & Hset & Hkeep).
  destruct (Hset 2%nat idle_reader) as [Hl Hag]; [reflexivity|].
  split; [|exact Hl]. apply (Hkeep _ Hag).
Defined.

(** The capture of the three kinds of frame, as a whole: the ARP frame is
    accepted, the TCP frame goes to the TCP reassembler, the frame with the
    truncated header is reported to the listener with the text of the
    exception. *)
Lemma mixed_capture_receivers :
  List.filter is_sink
    (calls_during (dispatch_frames mixed_env [arp_frame; tcp_frame; bad_frame])
       idle_reader)
  = [accept 1%nat 0%nat; tcp_process 1%nat;
     accept_error 1%nat 2%nat "truncated header"].
Proof. vm_compute. reflexivity. Qed.

(** C2 (amended), on the TCP frame of a capture in which another frame does
    not parse. *)
Lemma tcp_frames_go_to_the_reassembler_witness :
  List.filter is_tcp_process (calls_during (handle_packet mixed_env tcp_frame) after_arp)
    = [tcp_process 1%nat] /\
  List.filter is_delivery (calls_during (handle_packet mixed_env tcp_frame) after_arp) = [].
Proof.
  apply (tcp_frames_go_to_the_reassembler mixed_env tcp_frame after_arp).
  - reflexivity.
  - reflexivity.
  - cbn. lia.
  - reflexivity.
Defined.

(** X11, on the UDP frame of such a capture. *)
Lemma udp_frames_go_to_the_reassembler_witness :
  List.filter is_sink (calls_during (handle_packet mixed_env udp_frame) after_arp)
    = [udp_process 1%nat].
Proof.
  apply (udp_frames_go_to_the_reassembler mixed_env udp_frame after_arp).
  - reflexivity.
  - reflexivity.
  - cbn. lia.
  - reflexivity.
Defined.

(** X12, on the ARP frame of such a capture. *)
Lemma short_stacks_are_accepted_witness :
  List.filter is_sink (calls_during (handle_packet mixed_env arp_frame) idle_reader)
    = [accept 1%nat 0%nat].
Proof.
  apply (short_stacks_are_accepted mixed_env arp_frame idle_reader).
  - cbn. lia.
  - reflexivity.
Defined.

(** X13, on the TCP frame of such a capture, with both reassemblers switched
    off. *)
Lemma unmatched_frames_are_accepted_witness :
  List.filter is_sink (calls_during (handle_packet mixed_env tcp_frame) plain_reader)
    = [accept 1%nat 0%nat].
Proof.
  apply (unmatched_frames_are_accepted mixed_env tcp_frame plain_reader).
  - reflexivity.
  - reflexivity.
  - reflexivity.
Defined.

(** X14, on a frame with a truncated header whose listener throws: the one
    receiver is [accept_error]. *)
Lemma handle_packet_hands_packet_on_witness :
  length (List.filter is_sink
            (calls_during (handle_packet (with_failures 0 0 listener_fails) demo_frame)
               idle_reader)) = 1%nat.
Proof.
  destruct (handle_packet_hands_packet_on (with_failures 0 0 listener_fails)
              demo_frame idle_reader) as [_ Hone].
  apply Hone. intros tr c Hc. destruct c; try discriminate Hc; reflexivity.
Defined.

(** X15, on a buffer of two frames. *)
Lemma dispatch_parses_each_frame_once_witness :
  length (List.filter is_init
            (calls_during (dispatch_frames tcp_env [demo_frame; demo_frame])
               idle_reader)) = 2%nat.
Proof.
  destruct (dispatch_parses_each_frame_once tcp_env [demo_frame; demo_frame]
              idle_reader) as (_ & _ & Heq).
  apply Heq. intros tr c _. reflexivity.
Defined.
